(** * Paper-trading simulator: [backend/services/portfolio_sim.py]

    A shallow embedding of the portfolio ledger ([ensure_position] and
    [execute_trade]) together with the pydantic models of
    [backend/domain.py] it works on, and the properties of the ledger.

    Numbers.  The Python code computes on [float], that is on IEEE 754
    binary64 numbers; the ledger's description treats cash, quantities
    and prices as real numbers.  The ledger is embedded on both.  Module
    [F] has it on Rocq's primitive floats, which are the binary64 numbers
    with the same rounding, infinities and NaN: it is what the code
    computes, and the statements that depend on rounding or overflow are
    made and decided there.  The other definitions read numbers as the
    description does, as canonical rationals [Qc], where arithmetic is
    exact and equality is Leibniz equality; the literal [1e-9] is then the
    rational 1/10^9.  The statements made on them say what a call tests
    and what it computes, with the operations in the order the code has
    them; where one rests on a law of exact arithmetic that rounding
    breaks, it says so.  The one division of the ledger is by
    [max(new_qty, 1e-9)], which is never zero ([max_tiny_pos],
    [max_tiny_nonzero]), so Python's [ZeroDivisionError] has no
    counterpart there.

    Objects.  The ledger on rationals is given twice.  [execute_trade]
    passes the portfolio state as a value.  [Obj.execute_trade] runs on a
    store of Python objects with identities, where [positions] and
    [history] are list objects holding references; it is the one used for
    the statements about aliasing and in-place mutation, and it is related
    to the first by [execute_trade_simulation].

    Around the ledger.  The endpoints of [backend/app.py] that keep a
    portfolio state for a user ([init_user], [paper_trade] and
    [get_portfolio], module [App]) are embedded with the file persistence
    they use ([backend/services/persistence.py]); so are the portfolio
    methods of [LocalStorageService]
    ([backend/services/local_storage.py]), the other place where trades
    are executed.  [get_portfolio] divides by an average price, where a
    zero raises [ZeroDivisionError], which the code catches, and by the
    number of trades, when that is positive. *)

From Stdlib Require Import QArith Qcanon Floats.
From stdpp Require Import base numbers option list strings gmap.

#[local] Set Warnings "-inexact-float".

Local Open Scope string_scope.
Local Open Scope Qc_scope.
Local Open Scope list_scope.

(** ** The domain models ([backend/domain.py]) *)

Module Trade.
Record t : Type := mk {
  symbol : string;
  side : string;
  quantity : Qc;
  price : Qc;
  time : string
}.
End Trade.

Module Position.
Record t : Type := mk {
  symbol : string;
  quantity : Qc;
  avg_price : Qc
}.

Definition set_quantity (q : Qc) (p : t) : t :=
  mk (symbol p) q (avg_price p).
Definition set_avg_price (a : Qc) (p : t) : t :=
  mk (symbol p) (quantity p) a.
End Position.

Record PortfolioState : Type := mkPortfolioState {
  cash : Qc;
  positions : list Position.t;
  history : list Trade.t
}.

#[global] Instance Trade_eq_dec : EqDecision Trade.t.
Proof. solve_decision. Defined.
#[global] Instance Position_eq_dec : EqDecision Position.t.
Proof. solve_decision. Defined.
#[global] Instance PortfolioState_eq_dec : EqDecision PortfolioState.
Proof. solve_decision. Defined.

(** ** Exceptions and results *)

(** The only exception the simulator raises is [ValueError], with a
    message. *)
Inductive exn : Type :=
  | ValueError (msg : string).

Inductive result (A : Type) : Type :=
  | Return (a : A)
  | Raise (e : exn).
Arguments Return {A} a.
Arguments Raise {A} e.

#[global] Instance exn_eq_dec : EqDecision exn.
Proof. solve_decision. Defined.
#[global] Instance result_eq_dec `{EqDecision A} : EqDecision (result A).
Proof. solve_decision. Defined.

(** ** Numbers *)

(** The float literal [1e-9]. *)
Definition tiny : Qc := Q2Qc (1 # 1000000000).

(** Python's [max(a, b)]: the first argument unless the second is
    strictly greater. *)
Definition max (a b : Qc) : Qc := if decide (a < b) then b else a.

(** Other literals: [float n d] is the number [n/d]. *)
Definition float (n : Z) (d : positive) : Qc := Q2Qc (n # d).

(** ** The simulator, on values *)

(** [ensure_position positions symbol]: the first position of the list
    whose symbol is [symbol], or a new position with quantity [0.0] and
    average price [0.0] appended to the list.  The result is the list
    after the call, the index of the position returned, and that
    position. *)
Definition ensure_position (positions : list Position.t) (symbol : string)
  : list Position.t * nat * Position.t :=
  match list_find (λ p, Position.symbol p = symbol) positions with
  | Some (i, p) => (positions, i, p)
  | None =>
      let new_p := Position.mk symbol 0 0 in
      (positions ++ [new_p], length positions, new_p)
  end.

Definition execute_trade (state : PortfolioState) (symbol side : string)
    (quantity price : Qc) (time : string) : result PortfolioState :=
  if decide (side = "buy") then
    let cost := quantity * price in
    if decide (cash state < cost) then Raise (ValueError "Insufficient cash")
    else
      let cash' := cash state - cost in
      let '(positions', i, pos) := ensure_position (positions state) symbol in
      let new_qty := Position.quantity pos + quantity in
      let pos :=
        Position.set_avg_price
          ((Position.avg_price pos * Position.quantity pos + price * quantity)
             / max new_qty tiny) pos in
      let pos := Position.set_quantity new_qty pos in
      Return (mkPortfolioState cash' (<[i:=pos]> positions')
                (history state ++ [Trade.mk symbol side quantity price time]))
  else
    let '(positions', i, pos) := ensure_position (positions state) symbol in
    if decide (Position.quantity pos < quantity) then
      Raise (ValueError "Insufficient shares")
    else
      let cash' := cash state + quantity * price in
      let pos :=
        Position.set_quantity (Position.quantity pos - quantity) pos in
      let pos :=
        if decide (Position.quantity pos = 0)
        then Position.set_avg_price 0 pos else pos in
      Return (mkPortfolioState cash' (<[i:=pos]> positions')
                (history state ++ [Trade.mk symbol side quantity price time])).

(** ** The simulator, on floats

    The same two functions on the numbers Python computes with: a
    [float] is an IEEE 754 binary64 number, here Rocq's primitive float,
    with the same rounding to nearest even, infinities, signed zeros and
    NaN.  [<?] and [=?] are Python's [<] and [==] on floats.  Python
    raises [ZeroDivisionError] on a division by zero; the one divisor of
    the simulator, [max(new_qty, 1e-9)], is never zero
    ([max_tiny_nonzero]). *)

Module F.

Module Trade.
Record t : Type := mk {
  symbol : string;
  side : string;
  quantity : PrimFloat.float;
  price : PrimFloat.float;
  time : string
}.
End Trade.

Module Position.
Record t : Type := mk {
  symbol : string;
  quantity : PrimFloat.float;
  avg_price : PrimFloat.float
}.

Definition set_quantity (q : PrimFloat.float) (p : t) : t :=
  mk (symbol p) q (avg_price p).
Definition set_avg_price (a : PrimFloat.float) (p : t) : t :=
  mk (symbol p) (quantity p) a.
End Position.

Record PortfolioState : Type := mkPortfolioState {
  cash : PrimFloat.float;
  positions : list Position.t;
  history : list Trade.t
}.

(** The float literal [1e-9]: as in Python, a decimal literal stands for
    the double nearest to it. *)
Definition tiny : PrimFloat.float := 1e-9%float.

Definition max (a b : PrimFloat.float) : PrimFloat.float :=
  if (a <? b)%float then b else a.

Definition ensure_position (positions : list Position.t) (symbol : string)
  : list Position.t * nat * Position.t :=
  match list_find (λ p, Position.symbol p = symbol) positions with
  | Some (i, p) => (positions, i, p)
  | None =>
      let new_p := Position.mk symbol 0%float 0%float in
      (positions ++ [new_p], length positions, new_p)
  end.

Definition execute_trade (state : PortfolioState) (symbol side : string)
    (quantity price : PrimFloat.float) (time : string)
  : result PortfolioState :=
  if decide (side = "buy") then
    let cost := (quantity * price)%float in
    if (cash state <? cost)%float then Raise (ValueError "Insufficient cash")
    else
      let cash' := (cash state - cost)%float in
      let '(positions', i, pos) := ensure_position (positions state) symbol in
      let new_qty := (Position.quantity pos + quantity)%float in
      let pos :=
        Position.set_avg_price
          ((Position.avg_price pos * Position.quantity pos + price * quantity)
             / max new_qty tiny)%float pos in
      let pos := Position.set_quantity new_qty pos in
      Return (mkPortfolioState cash' (<[i:=pos]> positions')
                (history state ++ [Trade.mk symbol side quantity price time]))
  else
    let '(positions', i, pos) := ensure_position (positions state) symbol in
    if (Position.quantity pos <? quantity)%float then
      Raise (ValueError "Insufficient shares")
    else
      let cash' := (cash state + quantity * price)%float in
      let pos :=
        Position.set_quantity (Position.quantity pos - quantity)%float pos in
      let pos :=
        if (Position.quantity pos =? 0)%float
        then Position.set_avg_price 0%float pos else pos in
      Return (mkPortfolioState cash' (<[i:=pos]> positions')
                (history state ++ [Trade.mk symbol side quantity price time])).

Definition position_of (state : PortfolioState) (symbol : string)
  : option Position.t :=
  snd <$> list_find (λ p, Position.symbol p = symbol) (positions state).

Definition apply_trade (state : PortfolioState) (t : Trade.t)
  : result PortfolioState :=
  execute_trade state (Trade.symbol t) (Trade.side t) (Trade.quantity t)
    (Trade.price t) (Trade.time t).

(** A sequence of calls, each on the state the previous one returned,
    up to the first that raises. *)
Fixpoint run (state : PortfolioState) (trades : list Trade.t)
  : result (list PortfolioState) :=
  match trades with
  | [] => Return []
  | t :: trades =>
      match apply_trade state t with
      | Raise e => Raise e
      | Return state' =>
          match run state' trades with
          | Raise e => Raise e
          | Return states => Return (state' :: states)
          end
      end
  end.

(** A trade of a positive quantity at a positive price. *)
Definition valid_trade (t : Trade.t) : Prop :=
  (0 <? Trade.quantity t)%float = true ∧ (0 <? Trade.price t)%float = true.

End F.

(** A float as the specification of the operations has it is not
    negative when it is a zero, a positive number, plus infinity or NaN. *)
Definition not_negative (x : spec_float) : Prop :=
  match x with
  | S754_finite true _ _ | S754_infinity true => False
  | _ => True
  end.

(** ** The simulator, on a store of objects *)

Module Obj.

(** An object reference is an index into the store. *)
Abbreviation ref := nat (only parsing).

(** The objects the simulator meets: model instances and lists.  Floats
    and strings are immutable and are held by value. *)
Inductive object : Type :=
  | PortfolioStateObj (cash : Qc) (positions history : ref)
  | ListObj (items : list ref)
  | PositionObj (p : Position.t)
  | TradeObj (t : Trade.t).

Abbreviation store := (list object) (only parsing).

(** A computation runs on the store and returns a value or raises; it
    has no outcome ([None]) when it follows a reference that is not in
    the store or meets an object of another class than it expects. *)
Definition M (A : Type) : Type := store → option (result A * store).

#[global] Instance M_ret : MRet M := λ A a σ, Some (Return a, σ).
#[global] Instance M_bind : MBind M := λ A B k m σ,
  match m σ with
  | Some (Return a, σ') => k a σ'
  | Some (Raise e, σ') => Some (Raise e, σ')
  | None => None
  end.

Definition raise {A} (e : exn) : M A := λ σ, Some (Raise e, σ).
Definition stuck {A} : M A := λ _, None.

Definition alloc (o : object) : M ref := λ σ,
  Some (Return (length σ), σ ++ [o]).
Definition get (r : ref) : M object := λ σ,
  match σ !! r with
  | Some o => Some (Return o, σ)
  | None => None
  end.
Definition put (r : ref) (o : object) : M unit := λ σ,
  if decide (r < length σ)%nat then Some (Return (), <[r:=o]> σ) else None.

Fixpoint alloc_all (os : list object) : M (list ref) :=
  match os with
  | [] => mret []
  | o :: os => r ← alloc o; rs ← alloc_all os; mret (r :: rs)
  end.

(** Attribute access. *)
Definition get_state (r : ref) : M (Qc * ref * ref) :=
  o ← get r;
  match o with
  | PortfolioStateObj c ps hs => mret (c, ps, hs)
  | _ => stuck
  end.
Definition get_list (r : ref) : M (list ref) :=
  o ← get r; match o with ListObj items => mret items | _ => stuck end.
Definition get_position (r : ref) : M Position.t :=
  o ← get r; match o with PositionObj p => mret p | _ => stuck end.

Definition set_cash (state : ref) (c : Qc) : M unit :=
  '(_, ps, hs) ← get_state state; put state (PortfolioStateObj c ps hs).
Definition set_quantity (pos : ref) (q : Qc) : M unit :=
  p ← get_position pos; put pos (PositionObj (Position.set_quantity q p)).
Definition set_avg_price (pos : ref) (a : Qc) : M unit :=
  p ← get_position pos; put pos (PositionObj (Position.set_avg_price a p)).
(** [l.append(r)] *)
Definition append (l : ref) (r : ref) : M unit :=
  items ← get_list l; put l (ListObj (items ++ [r])).

(** The value of a state object: what [model_dump()] returns, a tree of
    plain data that shares nothing with the objects it was read from. *)
Definition position_at (σ : store) (r : ref) : option Position.t :=
  match σ !! r with Some (PositionObj p) => Some p | _ => None end.
Definition trade_at (σ : store) (r : ref) : option Trade.t :=
  match σ !! r with Some (TradeObj t) => Some t | _ => None end.
Definition list_at (σ : store) (r : ref) : option (list ref) :=
  match σ !! r with Some (ListObj items) => Some items | _ => None end.

Definition dump (σ : store) (state : ref) : option PortfolioState :=
  match σ !! state with
  | Some (PortfolioStateObj c ps hs) =>
      pl ← list_at σ ps;
      hl ← list_at σ hs;
      P ← mapM (position_at σ) pl;
      H ← mapM (trade_at σ) hl;
      Some (mkPortfolioState c P H)
  | _ => None
  end.

Definition model_dump (state : ref) : M PortfolioState := λ σ,
  match dump σ state with
  | Some d => Some (Return d, σ)
  | None => None
  end.

(** The constructor call on the dumped fields: validation builds new
    model instances and new lists from the data. *)
Definition new_PortfolioState (d : PortfolioState) : M ref :=
  pl ← alloc_all (PositionObj <$> positions d);
  ps ← alloc (ListObj pl);
  hl ← alloc_all (TradeObj <$> history d);
  hs ← alloc (ListObj hl);
  alloc (PortfolioStateObj (cash d) ps hs).

(** The loop [for p in positions: if p.symbol == symbol: return p]. *)
Fixpoint find_position (items : list ref) (symbol : string)
  : M (option ref) :=
  match items with
  | [] => mret None
  | r :: items =>
      p ← get_position r;
      if decide (Position.symbol p = symbol) then mret (Some r)
      else find_position items symbol
  end.

Definition ensure_position (positions : ref) (symbol : string) : M ref :=
  items ← get_list positions;
  found ← find_position items symbol;
  match found with
  | Some p => mret p
  | None =>
      new_p ← alloc (PositionObj (Position.mk symbol 0 0));
      append positions new_p;;
      mret new_p
  end.

Definition execute_trade (state : ref) (symbol side : string)
    (quantity price : Qc) (time : string) : M ref :=
  d ← model_dump state;
  state ← new_PortfolioState d;
  (if decide (side = "buy") then
     let cost := quantity * price in
     '(c, _, _) ← get_state state;
     if decide (c < cost) then raise (ValueError "Insufficient cash")
     else
       '(c, _, _) ← get_state state;
       set_cash state (c - cost);;
       '(_, ps, _) ← get_state state;
       pos ← ensure_position ps symbol;
       p ← get_position pos;
       let new_qty := Position.quantity p + quantity in
       set_avg_price pos
         ((Position.avg_price p * Position.quantity p + price * quantity)
            / max new_qty tiny);;
       set_quantity pos new_qty
   else
     '(_, ps, _) ← get_state state;
     pos ← ensure_position ps symbol;
     p ← get_position pos;
     if decide (Position.quantity p < quantity)
     then raise (ValueError "Insufficient shares")
     else
       '(c, _, _) ← get_state state;
       set_cash state (c + quantity * price);;
       set_quantity pos (Position.quantity p - quantity);;
       p ← get_position pos;
       if decide (Position.quantity p = 0) then set_avg_price pos 0
       else mret ());;
  '(_, _, hs) ← get_state state;
  t ← alloc (TradeObj (Trade.mk symbol side quantity price time));
  append hs t;;
  mret state.

End Obj.

(** ** Reading a portfolio *)

(** The position of a symbol: the first position of the list with that
    symbol, the one [ensure_position] returns. *)
Definition position_of (state : PortfolioState) (symbol : string)
  : option Position.t :=
  snd <$> list_find (λ p, Position.symbol p = symbol) (positions state).

(** The quantity held of a symbol; no position counts as zero. *)
Definition held (state : PortfolioState) (symbol : string) : Qc :=
  default 0 (Position.quantity <$> position_of state symbol).

(** The arguments of a call are those of a [Trade] record. *)
Definition apply_trade (state : PortfolioState) (t : Trade.t)
  : result PortfolioState :=
  execute_trade state (Trade.symbol t) (Trade.side t) (Trade.quantity t)
    (Trade.price t) (Trade.time t).

(** A sequence of calls, each on the state the previous one returned; the
    result lists the state after each call, and the run stops at the
    first call that raises. *)
Fixpoint run (state : PortfolioState) (trades : list Trade.t)
  : result (list PortfolioState) :=
  match trades with
  | [] => Return []
  | t :: trades =>
      match apply_trade state t with
      | Raise e => Raise e
      | Return state' =>
          match run state' trades with
          | Raise e => Raise e
          | Return states => Return (state' :: states)
          end
      end
  end.

(** A caller that keeps its state when a call raises. *)
Definition apply_or_keep (state : PortfolioState) (t : Trade.t)
  : PortfolioState :=
  match apply_trade state t with
  | Return state' => state'
  | Raise _ => state
  end.

(** The position written back by a buy and by a sale. *)
Definition bought (pos : Position.t) (quantity price : Qc) : Position.t :=
  Position.mk (Position.symbol pos) (Position.quantity pos + quantity)
    ((Position.avg_price pos * Position.quantity pos + price * quantity)
       / max (Position.quantity pos + quantity) tiny).

Definition sold (pos : Position.t) (quantity : Qc) : Position.t :=
  Position.mk (Position.symbol pos) (Position.quantity pos - quantity)
    (if decide (Position.quantity pos - quantity = 0) then 0
     else Position.avg_price pos).

(** ** What the properties are about *)

Definition valid_trade (t : Trade.t) : Prop :=
  0 < Trade.quantity t ∧ 0 < Trade.price t.

Definition quantities_nonneg (state : PortfolioState) : Prop :=
  Forall (λ p, 0 ≤ Position.quantity p) (positions state).

Definition basis_reset (state : PortfolioState) : Prop :=
  Forall (λ p, Position.quantity p = 0 → Position.avg_price p = 0)
    (positions state).

(** ** The store of objects *)

(** The layout of a state object of value [v]: its two list objects
    [ps] and [hs], and the position and trade objects [pl] and [hl] they
    refer to. *)
Record layout (σ : Obj.store) (s : Obj.ref) (v : PortfolioState)
    (ps hs : Obj.ref) (pl hl : list Obj.ref) : Prop := mk_layout {
  layout_state : σ !! s = Some (Obj.PortfolioStateObj (cash v) ps hs);
  layout_positions : σ !! ps = Some (Obj.ListObj pl);
  layout_history : σ !! hs = Some (Obj.ListObj hl);
  layout_pl :
    Forall2 (λ r p, σ !! r = Some (Obj.PositionObj p)) pl (positions v);
  layout_hl :
    Forall2 (λ r t, σ !! r = Some (Obj.TradeObj t)) hl (history v)
}.

(** A state whose objects were all allocated at or after [base], with no
    object shared between two places. *)
Record owned (base : nat) (σ : Obj.store) (s : Obj.ref) (v : PortfolioState)
    (ps hs : Obj.ref) (pl hl : list Obj.ref) : Prop := mk_owned {
  owned_layout : layout σ s v ps hs pl hl;
  owned_NoDup : NoDup pl;
  owned_lists : ps ≠ hs;
  owned_state : (base ≤ s)%nat;
  owned_ps : (base ≤ ps)%nat;
  owned_hs : (base ≤ hs)%nat;
  owned_pl : Forall (λ r, (base ≤ r)%nat) pl
}.

(** Closes a goal between closed terms by running its decision
    procedure. *)
Ltac by_computation := apply (bool_decide_unpack _); vm_compute; exact I.

(** ** Concrete portfolios *)

(** A portfolio of 5 units of X bought at 10, and no cash. *)
Definition portfolio_X : PortfolioState :=
  mkPortfolioState 0 [Position.mk "X" (float 5 1) (float 10 1)] [].

(** The scenario of the ledger's description: from cash 1000, buy 2 X at
    100, buy 2 more at 200, sell 4 at 150. *)
Definition scenario_start : PortfolioState :=
  mkPortfolioState (float 1000 1) [] [].

Definition scenario_trades : list Trade.t :=
  [Trade.mk "X" "buy" 2 (float 100 1) "t1";
   Trade.mk "X" "buy" 2 (float 200 1) "t2";
   Trade.mk "X" "sell" (float 4 1) (float 150 1) "t3"].

Definition scenario_states : list PortfolioState :=
  [mkPortfolioState (float 800 1) [Position.mk "X" 2 (float 100 1)]
     (take 1 scenario_trades);
   mkPortfolioState (float 400 1) [Position.mk "X" (float 4 1) (float 150 1)]
     (take 2 scenario_trades);
   mkPortfolioState (float 1000 1) [Position.mk "X" 0 0] scenario_trades].

(** The portfolio after the two buys of the scenario. *)
Definition portfolio_after_buys : PortfolioState :=
  mkPortfolioState (float 400 1) [Position.mk "X" (float 4 1) (float 150 1)]
    (take 2 scenario_trades).

(** The scenario on floats. *)
Definition float_scenario_start : F.PortfolioState :=
  F.mkPortfolioState 1000%float [] [].

Definition float_scenario_trades : list F.Trade.t :=
  [F.Trade.mk "X" "buy" 2%float 100%float "t1";
   F.Trade.mk "X" "buy" 2%float 200%float "t2";
   F.Trade.mk "X" "sell" 4%float 150%float "t3"].

(** One unit of X bought at 5, and a cash of 10, on floats. *)
Definition float_portfolio_X : F.PortfolioState :=
  F.mkPortfolioState 10%float [F.Position.mk "X" 1%float 5%float] [].

(** A portfolio with a cash near the largest float, and two trades at a
    price as large. *)
Definition rich_portfolio : F.PortfolioState :=
  F.mkPortfolioState 1e308%float [F.Position.mk "X" 2%float 1%float] [].

Definition rich_trades : list F.Trade.t :=
  [F.Trade.mk "X" "sell" 2%float 1e308%float "t1";
   F.Trade.mk "Y" "buy" 2%float 1e308%float "t2"].

(** A tenth of [1e-9]. *)
Definition dust : Qc := float 1 10000000000.

(** A store holding [portfolio_X] as object 3. *)
Definition store_X : Obj.store :=
  [Obj.PositionObj (Position.mk "X" (float 5 1) (float 10 1));
   Obj.ListObj [0%nat]; Obj.ListObj [];
   Obj.PortfolioStateObj 0 1 2].

(** ** The endpoints that use the simulator

    [init_user], [paper_trade] and [get_portfolio] of [backend/app.py],
    with [load_user] and [save_user] of [backend/services/persistence.py].

    The data directory is a finite map from user ids to the content of
    their JSON files; a user id is taken to be a file name, without a
    path in it.  The files are written by [save_user] only, with
    the dump of a [PortfolioState], which [json] writes and reads back as
    it is; a dump is a dict with three keys, so [not user] is false of it.
    The market and the clock are outside the code modelled: the latest
    close of [md.candles(symbol)], or the failure of that call, and the
    string [datetime.utcnow().isoformat()] are taken as arguments. *)

(** An endpoint returns a response body or raises [HTTPException]. *)
Inductive http (A : Type) : Type :=
  | Respond (body : A)
  | HTTPException (status_code : nat) (detail : string).
Arguments Respond {A} body.
Arguments HTTPException {A} status_code detail.

(** [float(md.candles(symbol).iloc[-1]["close"])]: a price, or an
    exception whose [str] is [message]. *)
Inductive latest_close : Type :=
  | Close (price : Qc)
  | NoClose (message : string).

Module InitRequest.
Record t : Type := mk {
  user_id : string;
  cash : Qc
}.
End InitRequest.

Module TradeInput.
Record t : Type := mk {
  user_id : string;
  symbol : string;
  side : string;
  quantity : Qc
}.
End TradeInput.

(** A row of ["positions"] in the answer of [get_portfolio]. *)
Module Row.
Record t : Type := mk {
  symbol : string;
  quantity : Qc;
  avg_price : Qc;
  current_price : Qc;
  value : Qc;
  pnl : Qc;
  pnl_percent : Qc
}.
End Row.

Module Metrics.
Record t : Type := mk {
  total_value : Qc;
  cash : Qc;
  positions_value : Qc;
  total_pnl : Qc;
  total_trades : nat;
  winning_trades : nat;
  losing_trades : nat;
  win_rate : Qc
}.
End Metrics.

Module Report.
Record t : Type := mk {
  state : PortfolioState;
  positions : list Row.t;
  metrics : Metrics.t
}.
End Report.

#[global] Instance http_eq_dec `{EqDecision A} : EqDecision (http A).
Proof. solve_decision. Defined.
#[global] Instance Row_eq_dec : EqDecision Row.t.
Proof. solve_decision. Defined.
#[global] Instance Metrics_eq_dec : EqDecision Metrics.t.
Proof. solve_decision. Defined.
#[global] Instance Report_eq_dec : EqDecision Report.t.
Proof. solve_decision. Defined.

Module App.

Abbreviation files := (gmap string PortfolioState) (only parsing).
Abbreviation market := (string → latest_close) (only parsing).

Definition load_user (user_id : string) (dir : files)
  : option PortfolioState :=
  dir !! user_id.

Definition save_user (user_id : string) (obj : PortfolioState) (dir : files)
  : files :=
  <[user_id:=obj]> dir.

(** [PortfolioState(cash=req.cash)] has the default empty lists. *)
Definition init_user (req : InitRequest.t) (dir : files)
  : http PortfolioState * files :=
  let state := mkPortfolioState (InitRequest.cash req) [] [] in
  (Respond state, save_user (InitRequest.user_id req) state dir).

(** The body is the pair of ["state"] and ["fill_price"].  An
    [HTTPException] raised inside the [try] is raised again; any other
    exception becomes one of status 500. *)
Definition paper_trade (md : market) (utcnow : string) (t : TradeInput.t)
    (dir : files) : http (PortfolioState * Qc) * files :=
  match load_user (TradeInput.user_id t) dir with
  | None => (HTTPException 404 "user not found; call /api/init first", dir)
  | Some user =>
      match md (TradeInput.symbol t) with
      | NoClose message =>
          (HTTPException 500 ("Failed to execute paper trade: " +:+ message),
           dir)
      | Close price =>
          match
            execute_trade user (TradeInput.symbol t) (TradeInput.side t)
              (TradeInput.quantity t) price utcnow
          with
          | Raise (ValueError message) =>
              (HTTPException 500
                 ("Failed to execute paper trade: " +:+ message), dir)
          | Return state =>
              (Respond (state, price),
               save_user (TradeInput.user_id t) state dir)
          end
      end
  end.

(** The row reported when the price cannot be had, or when the
    computation of the row raises: the average price stands in for the
    current price. *)
Definition fallback_row (pos : Position.t) : Row.t :=
  Row.mk (Position.symbol pos) (Position.quantity pos)
    (Position.avg_price pos) (Position.avg_price pos)
    (Position.quantity pos * Position.avg_price pos) 0 0.

(** The body of the loop over the positions.  The division by
    [pos.avg_price] raises [ZeroDivisionError] when that is zero, which
    the [except] of the loop catches before anything was added. *)
Definition position_row (md : market) (pos : Position.t) : Row.t :=
  match md (Position.symbol pos) with
  | NoClose _ => fallback_row pos
  | Close current_price =>
      let position_value := Position.quantity pos * current_price in
      let pnl :=
        (current_price - Position.avg_price pos) * Position.quantity pos in
      if decide (Position.avg_price pos = 0) then fallback_row pos
      else
        let pnl_percent :=
          (current_price - Position.avg_price pos) / Position.avg_price pos
          * float 100 1 in
        Row.mk (Position.symbol pos) (Position.quantity pos)
          (Position.avg_price pos) current_price position_value pnl
          pnl_percent
  end.

(** The loop: [positions_value] and [positions_data] after it. *)
Definition value_positions (md : market) (positions : list Position.t)
  : Qc * list Row.t :=
  foldl
    (λ '(positions_value, positions_data) pos,
       let row := position_row md pos in
       (positions_value + Row.value row, positions_data ++ [row]))
    (0, []) positions.

(** Python's [min(a, b)]: the first argument unless the second is
    strictly smaller. *)
Definition min (a b : Qc) : Qc := if decide (b < a) then b else a.

(** The variables of the loop over the history; [position_tracker] maps
    a symbol to the buys not yet paired, each a price and a quantity. *)
Record tally : Type := mk_tally {
  winning_trades : nat;
  losing_trades : nat;
  total_pnl : Qc;
  position_tracker : gmap string (list (Qc * Qc))
}.

Definition count_trade (acc : tally) (trade : Trade.t) : tally :=
  let tracker := position_tracker acc in
  if decide (Trade.side trade = "buy") then
    let bought := default [] (tracker !! Trade.symbol trade) in
    mk_tally (winning_trades acc) (losing_trades acc) (total_pnl acc)
      (<[Trade.symbol trade :=
           bought ++ [(Trade.price trade, Trade.quantity trade)]]> tracker)
  else if decide (Trade.side trade = "sell") then
    match tracker !! Trade.symbol trade with
    | Some (buy_data :: rest) =>
        let pnl :=
          (Trade.price trade - buy_data.1)
          * min (Trade.quantity trade) buy_data.2 in
        mk_tally
          (if decide (0 < pnl) then S (winning_trades acc)
           else winning_trades acc)
          (if decide (0 < pnl) then losing_trades acc
           else if decide (pnl < 0) then S (losing_trades acc)
           else losing_trades acc)
          (total_pnl acc + pnl)
          (<[Trade.symbol trade := rest]> tracker)
    | _ => acc
    end
  else acc.

Definition count_trades (history : list Trade.t) : tally :=
  foldl count_trade (mk_tally 0 0 0 ∅) history.

Definition of_nat (n : nat) : Qc := Qc_of_Z (Z.of_nat n).

Definition get_portfolio (md : market) (user_id : string) (dir : files)
  : http Report.t :=
  match load_user user_id dir with
  | None => HTTPException 404 "user not found; call /api/init first"
  | Some state =>
      let '(positions_value, positions_data) :=
        value_positions md (positions state) in
      let total_value := cash state + positions_value in
      let total_trades := length (history state) in
      let acc := count_trades (history state) in
      let win_rate :=
        if decide (0 < total_trades)%nat
        then of_nat (winning_trades acc) / of_nat total_trades * float 100 1
        else 0 in
      Respond
        (Report.mk state positions_data
           (Metrics.mk total_value (cash state) positions_value
              (total_pnl acc) total_trades (winning_trades acc)
              (losing_trades acc) win_rate))
  end.

(** The endpoints are coroutines without an [await], so a worker handles
    a request to its end before it takes the next one. *)
Inductive request : Type :=
  | Init (req : InitRequest.t)
  | PaperTrade (md : market) (utcnow : string) (t : TradeInput.t).

(** The data directory after a request. *)
Definition handle (dir : files) (r : request) : files :=
  match r with
  | Init req => (init_user req dir).2
  | PaperTrade md utcnow t => (paper_trade md utcnow t dir).2
  end.

Definition serve (requests : list request) (dir : files) : files :=
  foldl handle dir requests.

End App.

(** ** The local storage ([backend/services/local_storage.py])

    The portfolios and the trades that [LocalStorageService] keeps in
    [portfolios.json] and [trades.json].  A file holds one JSON object,
    read into a dict and written back at each call; a dict keeps its keys
    in the order of their first insertion, and so does the file.  The
    files are taken to be written by this class only, so that a portfolio
    has the keys [create_portfolio] gives it, and to be readable and
    writable.  The identifier [uuid.uuid4()] draws and the time of the
    call are arguments. *)

(** A dict with string keys, in insertion order. *)
Abbreviation dict A := (list (string * A)) (only parsing).

(** [d.get(k)], and [k in d] when it is not [None]. *)
Definition dict_get {A} (k : string) (d : dict A) : option A :=
  (λ ikv : nat * (string * A), ikv.2.2) <$> list_find (λ kv, kv.1 = k) d.

(** [d[k] = v]: in place when the key is there, at the end otherwise. *)
Definition dict_set {A} (k : string) (v : A) (d : dict A) : dict A :=
  match list_find (λ kv, kv.1 = k) d with
  | Some (i, _) => <[i:=(k, v)]> d
  | None => d ++ [(k, v)]
  end.

(** [d.values()] *)
Definition dict_values {A} (d : dict A) : list A := d.*2.

(** A position of a stored portfolio, with the keys that
    [get_portfolio_detail] reads. *)
Module Holding.
Record t : Type := mk {
  symbol : string;
  quantity : Qc;
  avg_cost : Qc
}.
End Holding.

Module Portfolio.
Record t : Type := mk {
  portfolio_id : string;
  user_id : string;
  portfolio_name : string;
  initial_value : Qc;
  current_balance : Qc;
  total_value : Qc;
  positions : list Holding.t;
  tracked_symbols : list string;
  is_active : bool;
  created_at : string
}.
Definition set_current_balance (b : Qc) (p : t) : t :=
  mk (portfolio_id p) (user_id p) (portfolio_name p) (initial_value p) b
    (total_value p) (positions p) (tracked_symbols p) (is_active p)
    (created_at p).
Definition set_tracked_symbols (symbols : list string) (p : t) : t :=
  mk (portfolio_id p) (user_id p) (portfolio_name p) (initial_value p)
    (current_balance p) (total_value p) (positions p) symbols (is_active p)
    (created_at p).
Definition set_is_active (b : bool) (p : t) : t :=
  mk (portfolio_id p) (user_id p) (portfolio_name p) (initial_value p)
    (current_balance p) (total_value p) (positions p) (tracked_symbols p) b
    (created_at p).
End Portfolio.

Module StoredTrade.
Record t : Type := mk {
  trade_id : string;
  portfolio_id : string;
  symbol : string;
  side : string;
  quantity : Qc;
  price : Qc;
  trade_type : string;
  status : string;
  executed_at : string
}.
End StoredTrade.

#[global] Instance Holding_eq_dec : EqDecision Holding.t.
Proof. solve_decision. Defined.
#[global] Instance Portfolio_eq_dec : EqDecision Portfolio.t.
Proof. solve_decision. Defined.
#[global] Instance StoredTrade_eq_dec : EqDecision StoredTrade.t.
Proof. solve_decision. Defined.

Module LocalStorageService.

(** The two files. *)
Record storage : Type := mk_storage {
  portfolios_file : dict Portfolio.t;
  trades_file : dict StoredTrade.t
}.

(** [tracked_symbols or []]: [None] and the empty list give the empty
    list. *)
Definition create_portfolio (uuid4 utcnow : string)
    (user_id portfolio_name : string) (initial_value : Qc)
    (tracked_symbols : option (list string)) (db : storage)
  : Portfolio.t * storage :=
  let portfolio :=
    Portfolio.mk uuid4 user_id portfolio_name initial_value initial_value
      initial_value [] (default [] tracked_symbols) true utcnow in
  (portfolio,
   mk_storage (dict_set uuid4 portfolio (portfolios_file db))
     (trades_file db)).

Definition get_portfolio (portfolio_id : string) (db : storage)
  : option Portfolio.t :=
  dict_get portfolio_id (portfolios_file db).

Definition get_user_portfolios (user_id : string) (db : storage)
  : list Portfolio.t :=
  filter (λ p, Portfolio.user_id p = user_id ∧ Portfolio.is_active p = true)
    (dict_values (portfolios_file db)).

Definition delete_portfolio (portfolio_id : string) (db : storage)
  : bool * storage :=
  match dict_get portfolio_id (portfolios_file db) with
  | Some portfolio =>
      (true,
       mk_storage
         (dict_set portfolio_id (Portfolio.set_is_active false portfolio)
            (portfolios_file db))
         (trades_file db))
  | None => (false, db)
  end.

Definition add_tracked_symbol (portfolio_id symbol : string) (db : storage)
  : option Portfolio.t * storage :=
  match dict_get portfolio_id (portfolios_file db) with
  | Some portfolio =>
      let symbols := Portfolio.tracked_symbols portfolio in
      if decide (symbol ∈ symbols) then (Some portfolio, db)
      else
        let portfolio' :=
          Portfolio.set_tracked_symbols (symbols ++ [symbol]) portfolio in
        (Some portfolio',
         mk_storage (dict_set portfolio_id portfolio' (portfolios_file db))
           (trades_file db))
  | None => (None, db)
  end.

(** [symbols.remove(symbol)] removes the first occurrence. *)
Fixpoint remove (symbol : string) (symbols : list string) : list string :=
  match symbols with
  | [] => []
  | s :: symbols =>
      if decide (s = symbol) then symbols else s :: remove symbol symbols
  end.

Definition remove_tracked_symbol (portfolio_id symbol : string)
    (db : storage) : option Portfolio.t * storage :=
  match dict_get portfolio_id (portfolios_file db) with
  | Some portfolio =>
      let symbols := Portfolio.tracked_symbols portfolio in
      if decide (symbol ∈ symbols) then
        let portfolio' :=
          Portfolio.set_tracked_symbols (remove symbol symbols) portfolio in
        (Some portfolio',
         mk_storage (dict_set portfolio_id portfolio' (portfolios_file db))
           (trades_file db))
      else (Some portfolio, db)
  | None => (None, db)
  end.

Definition execute_trade (uuid4 utcnow : string)
    (portfolio_id symbol side : string) (quantity price : Qc)
    (trade_type : string) (db : storage) : result StoredTrade.t * storage :=
  match dict_get portfolio_id (portfolios_file db) with
  | None => (Raise (ValueError "Portfolio not found"), db)
  | Some portfolio =>
      let trade :=
        StoredTrade.mk uuid4 portfolio_id symbol side quantity price
          trade_type "filled" utcnow in
      let trades := dict_set uuid4 trade (trades_file db) in
      let cost := quantity * price in
      let balance :=
        if decide (side = "buy")
        then Portfolio.current_balance portfolio - cost
        else Portfolio.current_balance portfolio + cost in
      (Return trade,
       mk_storage
         (dict_set portfolio_id
            (Portfolio.set_current_balance balance portfolio)
            (portfolios_file db))
         trades)
  end.

End LocalStorageService.

(** A market whose prices are not negative. *)
Definition prices_nonneg (md : string → latest_close) : Prop :=
  ∀ symbol price, md symbol = Close price → 0 ≤ price.

(** A request that gives or trades no negative amount. *)
Definition request_nonneg (r : App.request) : Prop :=
  match r with
  | App.Init req => 0 ≤ InitRequest.cash req
  | App.PaperTrade md _ t => prices_nonneg md ∧ 0 ≤ TradeInput.quantity t
  end.

(** The request of a user for an order, at a time and on a market that
    quotes the order's price. *)
Definition order_request (user_id : string)
    (order : (string → latest_close) * Trade.t) : App.request :=
  App.PaperTrade order.1 (Trade.time order.2)
    (TradeInput.mk user_id (Trade.symbol order.2) (Trade.side order.2)
       (Trade.quantity order.2)).

(** The records of a history with a given side. *)
Definition with_side (side : string) (history : list Trade.t)
  : list Trade.t :=
  filter (λ t, Trade.side t = side) history.

(** The buys that wait in a tracker of [get_portfolio] for a sale. *)
Definition pending_buys (tracker : gmap string (list (Qc * Qc))) : nat :=
  map_fold (λ _ buys n, (length buys + n)%nat) 0%nat tracker.

(** ** A data directory and a market *)

(** One user, ann, who holds [portfolio_after_buys]. *)
Definition data_dir : gmap string PortfolioState :=
  {[ "ann" := portfolio_after_buys ]}.

(** The same user after the sale of the scenario. *)
Definition scenario_dir : gmap string PortfolioState :=
  {[ "ann" :=
       mkPortfolioState (float 1000 1) [Position.mk "X" 0 0] scenario_trades ]}.

(** A market that quotes X at 150 and has no data on other symbols. *)
Definition quotes (symbol : string) : latest_close :=
  if decide (symbol = "X") then Close (float 150 1) else NoClose "no data".

(** A storage with one portfolio of ann: a balance of 100, AAPL
    tracked, no trade. *)
Definition portfolio_p1 : Portfolio.t :=
  Portfolio.mk "p1" "ann" "demo" (float 100 1) (float 100 1) (float 100 1)
    [] ["AAPL"] true "t0".

Definition storage_p1 : LocalStorageService.storage :=
  LocalStorageService.mk_storage [("p1", portfolio_p1)] [].

(** * Properties *)

(** ** Arithmetic *)

Lemma tiny_pos : 0 < tiny.
Proof. by apply (bool_decide_unpack _). Qed.

Lemma max_l a b : b ≤ a → max a b = a.
Proof.
  intros Hba. unfold max. case_decide as Hab; [|done].
  by apply Qcle_not_lt in Hba.
Qed.

(** The divisor of the average price is never zero. *)
Lemma max_tiny_pos a : 0 < max a tiny.
Proof.
  unfold max. case_decide as Hlt; [apply tiny_pos|].
  apply Qcnot_lt_le in Hlt. eapply Qclt_le_trans; [apply tiny_pos | done].
Qed.

Lemma Qc_pos_ne_0 (a : Qc) : 0 < a → a ≠ 0.
Proof. intros Ha Heq. by apply (Qclt_not_eq _ _ Ha). Qed.

Lemma Qcminus_nonneg (a b : Qc) : ¬ a < b → 0 ≤ a - b.
Proof.
  intros Hab%Qcnot_lt_le. apply (Qcplus_le_mono_r _ _ b).
  by replace (a - b + b) with a by ring; rewrite Qcplus_0_l.
Qed.

(** ** Floats: the sign of a sum, a product and a difference

    From the specification of the binary64 operations: the result of
    rounding has the sign of what is rounded, and a float that is not
    below another has, once both are aligned on the smaller exponent, a
    mantissa that is not smaller. *)

Section spec_float.
Local Open Scope Z_scope.

Lemma binary_round_aux_not_negative mx ex lx :
  not_negative (binary_round_aux prec emax false mx ex lx).
Proof.
  unfold binary_round_aux.
  destruct (shr_fexp _ _ _ _ _) as [mrs' e'].
  destruct (shr_fexp _ _ _ _ _) as [mrs'' e''].
  destruct (shr_m mrs''); [done| |done].
  by destruct (_ <=? _)%Z.
Qed.

Lemma binary_normalize_not_negative m e :
  0 ≤ m → not_negative (binary_normalize prec emax m e false).
Proof.
  destruct m as [|m|m]; [done| |done]. intros _. simpl.
  unfold binary_round. destruct (shl_align _ _ _) as [mz ez].
  apply binary_round_aux_not_negative.
Qed.

Lemma SFmul_not_negative x y :
  not_negative x → not_negative y → not_negative (SF64mul x y).
Proof.
  destruct x as [sx|[]| |[] mx ex], y as [sy|[]| |[] my ey]; try done;
    intros _ _; unfold SF64mul, SFmul.
  apply binary_round_aux_not_negative.
Qed.

Lemma SFadd_not_negative x y :
  not_negative x → not_negative y → not_negative (SF64add x y).
Proof.
  destruct x as [[]|[]| |[] mx ex], y as [[]|[]| |[] my ey]; try done;
    intros _ _; unfold SF64add, SFadd.
  by apply binary_normalize_not_negative.
Qed.

Lemma iter_xO m d : Zpos (Pos.iter xO m d) = Zpos m * 2 ^ Zpos d.
Proof.
  induction d as [|d IH] using Pos.peano_ind.
  - simpl. lia.
  - rewrite Pos.iter_succ, Pos2Z.inj_xO, IH, Pos2Z.inj_succ, Z.pow_succ_r; lia.
Qed.

Lemma shl_align_le mx ex ez :
  ez ≤ ex → Zpos (shl_align mx ex ez).1 = Zpos mx * 2 ^ (ex - ez).
Proof.
  intros Hle. unfold shl_align.
  destruct (ez - ex) as [|d|d] eqn:Hd; simpl.
  - replace (ex - ez) with 0 by lia. lia.
  - lia.
  - rewrite iter_xO. f_equal. f_equal. lia.
Qed.

Lemma digits2_pos_bounds m :
  2 ^ (Zpos (digits2_pos m) - 1) ≤ Zpos m < 2 ^ Zpos (digits2_pos m).
Proof.
  induction m as [m IH|m IH|]; simpl digits2_pos.
  - rewrite Pos2Z.inj_succ, Z.pow_succ_r by lia.
    replace (Z.succ (Zpos (digits2_pos m)) - 1)
      with (Z.succ (Zpos (digits2_pos m) - 1)) by lia.
    rewrite Z.pow_succ_r by lia. lia.
  - rewrite Pos2Z.inj_succ, Z.pow_succ_r by lia.
    replace (Z.succ (Zpos (digits2_pos m)) - 1)
      with (Z.succ (Zpos (digits2_pos m) - 1)) by lia.
    rewrite Z.pow_succ_r by lia. lia.
  - simpl. lia.
Qed.

Lemma bounded_canonical m e :
  bounded prec emax m e = true →
  Z.max (Zpos (digits2_pos m) + e - 53) (-1074) = e.
Proof.
  unfold bounded, canonical_mantissa, fexp.
  intros [H _]%andb_prop. by apply Z.eqb_eq in H.
Qed.

Lemma aligned_le mx ex my ey :
  bounded prec emax mx ex = true → bounded prec emax my ey = true →
  ey < ex ∨ (ey = ex ∧ (my ≤ mx)%positive) →
  Zpos (shl_align my ey (Z.min ex ey)).1
  ≤ Zpos (shl_align mx ex (Z.min ex ey)).1.
Proof.
  intros Hx%bounded_canonical Hy%bounded_canonical Hcase.
  rewrite !shl_align_le by lia.
  destruct Hcase as [Hlt|[-> Hle]].
  - rewrite Z.min_r by lia. rewrite Z.sub_diag, Z.mul_1_r.
    pose proof (digits2_pos_bounds mx) as [Hmx _].
    pose proof (digits2_pos_bounds my) as [_ Hmy].
    assert (Zpos (digits2_pos mx) = 53) as Hdx by lia.
    assert (Zpos (digits2_pos my) ≤ 53) as Hdy by lia.
    rewrite Hdx in Hmx. change (2 ^ (53 - 1)) with 4503599627370496 in Hmx.
    assert (Zpos my < 2 ^ 53) as Hmy'.
    { eapply Z.lt_le_trans; [exact Hmy|]. apply Z.pow_le_mono_r; lia. }
    change (2 ^ 53) with 9007199254740992 in Hmy'.
    assert (2 ^ 1 ≤ 2 ^ (ex - ey)) as Hpow
      by (apply Z.pow_le_mono_r; lia).
    change (2 ^ 1) with 2 in Hpow. nia.
  - rewrite Z.min_id, Z.sub_diag. lia.
Qed.

Lemma SFsub_not_negative x y :
  valid_binary x = true → valid_binary y = true →
  not_negative x → SFltb x y = false → not_negative (SF64sub x y).
Proof.
  destruct x as [sx|[]| |[] mx ex], y as [sy|[]| |[] my ey]; try done;
    intros Hx Hy _ Hlt; simpl in Hx, Hy; unfold SF64sub, SFsub;
    try (by destruct sx); try (by destruct sy); try (by destruct sx, sy).
  - apply binary_normalize_not_negative. simpl. lia.
  - apply binary_normalize_not_negative.
    simpl cond_Zopp.
    unfold SFltb, SFcompare in Hlt.
    pose proof (aligned_le mx ex my ey Hx Hy) as Hle.
    destruct (ex ?= ey) eqn:Hcmp; [| done |].
    + apply Z.compare_eq in Hcmp. subst ey.
      fold (Pos.compare mx my) in Hlt.
      destruct (mx ?= my)%positive eqn:Hm; [| done |].
      * apply Pos.compare_eq in Hm. subst. lia.
      * apply Pos.compare_gt_iff in Hm. lia.
    + apply Z.compare_gt_iff in Hcmp. lia.
Qed.

End spec_float.

Section prim_float.
Local Open Scope float_scope.

Lemma ltb_0 x : (x <? 0) = false ↔ not_negative (Prim2SF x).
Proof.
  rewrite FloatAxioms.ltb_spec. change (Prim2SF 0) with (S754_zero false).
  by destruct (Prim2SF x) as [[]|[]| |[] m e].
Qed.

Lemma mul_not_negative q p :
  (q <? 0) = false → (p <? 0) = false → (q * p <? 0) = false.
Proof.
  intros Hq%ltb_0 Hp%ltb_0. apply ltb_0. rewrite FloatAxioms.mul_spec.
  by apply SFmul_not_negative.
Qed.

Lemma add_not_negative a b :
  (a <? 0) = false → (b <? 0) = false → (a + b <? 0) = false.
Proof.
  intros Ha%ltb_0 Hb%ltb_0. apply ltb_0. rewrite FloatAxioms.add_spec.
  by apply SFadd_not_negative.
Qed.

Lemma sub_not_negative a b :
  (a <? 0) = false → (a <? b) = false → (a - b <? 0) = false.
Proof.
  intros Ha%ltb_0 Hlt. apply ltb_0. rewrite FloatAxioms.sub_spec. rewrite FloatAxioms.ltb_spec in Hlt.
  apply SFsub_not_negative; [apply Prim2SF_valid..|done|done].
Qed.

Lemma leb_0_not_negative x : (0 <=? x) = true → (x <? 0) = false.
Proof.
  intros H. apply ltb_0. revert H. rewrite FloatAxioms.leb_spec.
  change (Prim2SF 0) with (S754_zero false).
  by destruct (Prim2SF x) as [[]|[]| |[] m e].
Qed.

Lemma ltb_0_not_negative x : (0 <? x) = true → (x <? 0) = false.
Proof.
  intros H. apply ltb_0. revert H. rewrite FloatAxioms.ltb_spec.
  change (Prim2SF 0) with (S754_zero false).
  by destruct (Prim2SF x) as [[]|[]| |[] m e].
Qed.

Lemma not_negative_leb_0 x :
  (x <? 0) = false → (x =? x) = true → (0 <=? x) = true.
Proof.
  intros H%ltb_0. revert H. rewrite FloatAxioms.leb_spec, FloatAxioms.eqb_spec.
  change (Prim2SF 0) with (S754_zero false).
  by destruct (Prim2SF x) as [[]|[]| |[] m e].
Qed.

Lemma max_tiny_nonzero x : (F.max x F.tiny =? 0) = false.
Proof.
  unfold F.max. destruct (x <? F.tiny) eqn:Hlt; [done|].
  rewrite FloatAxioms.ltb_spec in Hlt. rewrite FloatAxioms.eqb_spec.
  change (Prim2SF 0) with (S754_zero false).
  change (Prim2SF F.tiny) with (S754_finite false 4835703278458517 (-82))
    in Hlt.
  by destruct (Prim2SF x) as [[]|[]| |[] m e].
Qed.

Lemma float_execute_trade_cash state symbol side quantity price time state' :
  F.execute_trade state symbol side quantity price time = Return state' →
  (side = "buy" ∧ (F.cash state <? quantity * price) = false
   ∧ F.cash state' = F.cash state - quantity * price)
  ∨ (side ≠ "buy" ∧ F.cash state' = F.cash state + quantity * price).
Proof.
  unfold F.execute_trade.
  destruct (F.ensure_position _ _) as [[positions' i] pos].
  case_decide as Hside.
  - destruct (F.cash state <? quantity * price) eqn:Hlt; [done|].
    intros [= <-]. by left.
  - destruct (F.Position.quantity pos <? quantity); [done|].
    intros [= <-]. by right.
Qed.

End prim_float.

(** ** [ensure_position] *)

Section ensure_position.
Context (P : list Position.t) (symbol : string).

(** The position returned is the first one with the symbol in the list
    after the call. *)
Lemma ensure_position_find P' i p :
  ensure_position P symbol = (P', i, p) →
  list_find (λ p, Position.symbol p = symbol) P' = Some (i, p).
Proof.
  unfold ensure_position.
  destruct (list_find _ P) as [[j q]|] eqn:Hfind; intros [= <- <- <-].
  - done.
  - rewrite list_find_app_r by done. simpl.
    by rewrite decide_True by done.
Qed.

Lemma ensure_position_lookup P' i p :
  ensure_position P symbol = (P', i, p) →
  P' !! i = Some p ∧ Position.symbol p = symbol.
Proof.
  intros H%ensure_position_find. apply list_find_Some in H. tauto.
Qed.

(** The list after the call is the list before it, with the new
    position at its end when there was none. *)
Lemma ensure_position_positions P' i p :
  ensure_position P symbol = (P', i, p) →
  (P' = P ∧ P !! i = Some p)
  ∨ (P' = P ++ [p] ∧ i = length P ∧ p = Position.mk symbol 0 0
     ∧ list_find (λ p, Position.symbol p = symbol) P = None).
Proof.
  unfold ensure_position.
  destruct (list_find _ P) as [[j q]|] eqn:Hfind; intros [= <- <- <-].
  - left. apply list_find_Some in Hfind. tauto.
  - by right.
Qed.
End ensure_position.

Lemma ensure_position_held state symbol P' i p :
  ensure_position (positions state) symbol = (P', i, p) →
  Position.quantity p = held state symbol.
Proof.
  unfold ensure_position, held, position_of.
  destruct (list_find _ _) as [[j q]|]; by intros [= <- <- <-].
Qed.

(** Writing back a position with the same symbol at the index found keeps
    it the first position of that symbol. *)
Lemma list_find_insert_same (P : list Position.t) symbol i p p' :
  list_find (λ p, Position.symbol p = symbol) P = Some (i, p) →
  Position.symbol p' = symbol →
  list_find (λ p, Position.symbol p = symbol) (<[i:=p']> P) = Some (i, p').
Proof.
  intros (Hi & _ & Hleast)%list_find_Some Hsym.
  apply list_find_insert_Some. right; left.
  split_and!; eauto using lookup_lt_Some.
Qed.

(** ** [execute_trade], case by case *)

Section execute_trade.
Context (state : PortfolioState) (symbol side : string).
Context (quantity price : Qc) (time : string).

Lemma execute_trade_buy_raise :
  side = "buy" → cash state < quantity * price →
  execute_trade state symbol side quantity price time
  = Raise (ValueError "Insufficient cash").
Proof.
  intros Hside Hlt. unfold execute_trade.
  by rewrite decide_True, decide_True.
Qed.

Lemma execute_trade_buy_return P' i pos :
  side = "buy" → ¬ cash state < quantity * price →
  ensure_position (positions state) symbol = (P', i, pos) →
  execute_trade state symbol side quantity price time
  = Return (mkPortfolioState (cash state - quantity * price)
              (<[i:=bought pos quantity price]> P')
              (history state
                   ++ [Trade.mk symbol side quantity price time])).
Proof.
  intros Hside Hge Hpos. unfold execute_trade.
  by rewrite decide_True, decide_False, Hpos.
Qed.

Lemma execute_trade_sell_raise :
  side ≠ "buy" → held state symbol < quantity →
  execute_trade state symbol side quantity price time
  = Raise (ValueError "Insufficient shares").
Proof.
  intros Hside Hlt. unfold execute_trade. rewrite decide_False by done.
  destruct (ensure_position _ _) as [[P' i] pos] eqn:Hpos.
  apply ensure_position_held in Hpos. by rewrite decide_True by congruence.
Qed.

Lemma execute_trade_sell_return P' i pos :
  side ≠ "buy" → ¬ held state symbol < quantity →
  ensure_position (positions state) symbol = (P', i, pos) →
  execute_trade state symbol side quantity price time
  = Return (mkPortfolioState (cash state + quantity * price)
              (<[i:=sold pos quantity]> P')
              (history state
                   ++ [Trade.mk symbol side quantity price time])).
Proof.
  intros Hside Hge Hpos. unfold execute_trade.
  rewrite decide_False, Hpos by done.
  rewrite decide_False
    by (by rewrite (ensure_position_held _ _ _ _ _ Hpos)).
  unfold sold. simpl. by case_decide.
Qed.

(** What a call that returns has done. *)
Lemma execute_trade_Return_inv state' :
  execute_trade state symbol side quantity price time = Return state' →
  ∃ P' i pos pos',
    ensure_position (positions state) symbol = (P', i, pos)
    ∧ positions state' = <[i:=pos']> P'
    ∧ history state' = history state ++ [Trade.mk symbol side quantity price time]
    ∧ ((side = "buy" ∧ ¬ cash state < quantity * price
        ∧ cash state' = cash state - quantity * price
        ∧ pos' = bought pos quantity price)
       ∨ (side ≠ "buy" ∧ ¬ held state symbol < quantity
          ∧ cash state' = cash state + quantity * price
          ∧ pos' = sold pos quantity)).
Proof.
  destruct (ensure_position (positions state) symbol)
    as [[P' i] pos] eqn:Hpos.
  destruct (decide (side = "buy")) as [Hside|Hside].
  - destruct (decide (cash state < quantity * price)) as [Hlt|Hge].
    + by rewrite execute_trade_buy_raise.
    + rewrite (execute_trade_buy_return P' i pos) by done.
      intros [= <-]. exists P', i, pos, (bought pos quantity price).
      simpl. split_and!; [done..|]. by left.
  - destruct (decide (held state symbol < quantity)) as [Hlt|Hge].
    + by rewrite execute_trade_sell_raise.
    + rewrite (execute_trade_sell_return P' i pos) by done.
      intros [= <-]. exists P', i, pos, (sold pos quantity).
      simpl. split_and!; [done..|]. by right.
Qed.

(** A call raises one of the two errors or returns. *)
Lemma execute_trade_Raise_inv e :
  execute_trade state symbol side quantity price time = Raise e →
  (side = "buy" ∧ cash state < quantity * price
   ∧ e = ValueError "Insufficient cash")
  ∨ (side ≠ "buy" ∧ held state symbol < quantity
     ∧ e = ValueError "Insufficient shares").
Proof.
  destruct (ensure_position (positions state) symbol)
    as [[P' i] pos] eqn:Hpos.
  destruct (decide (side = "buy")) as [Hside|Hside].
  - destruct (decide (cash state < quantity * price)) as [Hlt|Hge].
    + rewrite execute_trade_buy_raise by done. intros [= <-]. by left.
    + by rewrite (execute_trade_buy_return P' i pos).
  - destruct (decide (held state symbol < quantity)) as [Hlt|Hge].
    + rewrite execute_trade_sell_raise by done. intros [= <-]. by right.
    + by rewrite (execute_trade_sell_return P' i pos).
Qed.
End execute_trade.

(** The position of the traded symbol after a call that returns. *)
Lemma position_of_insert state symbol P' i pos pos' c h :
  ensure_position (positions state) symbol = (P', i, pos) →
  Position.symbol pos' = symbol →
  position_of (mkPortfolioState c (<[i:=pos']> P') h) symbol = Some pos'.
Proof.
  intros Hpos%ensure_position_find Hsym. unfold position_of. simpl.
  by rewrite (list_find_insert_same _ _ _ _ _ Hpos Hsym).
Qed.

(** ** Sequences of calls *)

Lemma run_cons_inv state t trades states :
  run state (t :: trades) = Return states →
  ∃ state' states',
    apply_trade state t = Return state'
    ∧ run state' trades = Return states'
    ∧ states = state' :: states'.
Proof.
  simpl. destruct (apply_trade state t) as [state'|] eqn:Ht; [|done].
  destruct (run state' trades) as [states'|] eqn:Hrun; [|done].
  intros [= <-]. by exists state', states'.
Qed.

(** A property of states that every returning call on valid arguments
    preserves holds after each call of a run. *)
Lemma run_invariant (I : PortfolioState → Prop) (V : Trade.t → Prop) :
  (∀ state t state',
     I state → V t → apply_trade state t = Return state' → I state') →
  ∀ trades state states,
    I state → Forall V trades → run state trades = Return states →
    Forall I states.
Proof.
  intros Hstep trades.
  induction trades as [|t trades IH]; intros state states HI HV Hrun.
  - injection Hrun as <-. constructor.
  - apply run_cons_inv in Hrun as (state' & states' & Ht & Hrun & ->).
    apply Forall_cons in HV as [HVt HV].
    assert (I state') by eauto.
    constructor; eauto.
Qed.

(** ** One call: cash, quantities, cost basis *)

Section step.
Context (state state' : PortfolioState) (symbol side : string).
Context (quantity price : Qc) (time : string).
Hypothesis Hcall :
  execute_trade state symbol side quantity price time = Return state'.

Lemma step_cash_nonneg :
  0 ≤ cash state → 0 ≤ quantity * price → 0 ≤ cash state'.
Proof using Hcall.
  intros Hcash Hcost.
  apply execute_trade_Return_inv in Hcall
    as (P' & i & pos & pos' & _ & _ & _ & Hcase).
  destruct Hcase as [(_ & Hge & -> & _)|(_ & _ & -> & _)].
  - by apply Qcminus_nonneg.
  - by apply Qcplus_nonneg_nonneg.
Qed.

Lemma step_quantities_nonneg :
  quantities_nonneg state → 0 ≤ quantity → quantities_nonneg state'.
Proof using Hcall.
  unfold quantities_nonneg. intros Hpos Hq.
  apply execute_trade_Return_inv in Hcall
    as (P' & i & pos & pos' & Hens & -> & _ & Hcase).
  assert (Forall (λ p, 0 ≤ Position.quantity p) P') as HP'.
  { destruct (ensure_position_positions _ _ _ _ _ Hens)
      as [[-> _]|(-> & _ & -> & _)]; [done|].
    apply Forall_app; split; [done|]. by apply Forall_singleton. }
  assert (0 ≤ Position.quantity pos) as Hqpos.
  { apply ensure_position_lookup in Hens as [Hi _].
    by apply (Forall_lookup_1 _ _ _ _ HP' Hi). }
  apply Forall_insert; [done|].
  destruct Hcase as [(_ & _ & _ & ->)|(_ & Hge & _ & ->)]; simpl.
  - by apply Qcplus_nonneg_nonneg.
  - apply Qcminus_nonneg.
    by rewrite (ensure_position_held _ _ _ _ _ Hens).
Qed.

Lemma step_basis_reset :
  quantities_nonneg state → basis_reset state → 0 ≤ quantity →
  basis_reset state'.
Proof using Hcall.
  unfold quantities_nonneg, basis_reset. intros Hpos Hbasis Hq.
  apply execute_trade_Return_inv in Hcall
    as (P' & i & pos & pos' & Hens & -> & _ & Hcase).
  assert (Forall (λ p, 0 ≤ Position.quantity p) P'
          ∧ Forall (λ p, Position.quantity p = 0 → Position.avg_price p = 0)
              P') as [HP' HB'].
  { destruct (ensure_position_positions _ _ _ _ _ Hens)
      as [[-> _]|(-> & _ & -> & _)]; [done|].
    split; (apply Forall_app; split; [done|]); by apply Forall_singleton. }
  apply ensure_position_lookup in Hens as [Hi _].
  pose proof (Forall_lookup_1 _ _ _ _ HP' Hi) as Hqpos.
  apply Forall_insert; [done|].
  destruct Hcase as [(_ & _ & _ & ->)|(_ & _ & _ & ->)]; simpl.
  - intros Hsum.
    assert (Position.quantity pos = 0 ∧ quantity = 0) as [Hq0 ->].
    { assert (Position.quantity pos ≤ 0) as Hle.
      { rewrite <-Hsum. rewrite <-(Qcplus_0_r (Position.quantity pos)) at 1.
        by apply Qcplus_le_mono_l. }
      assert (Position.quantity pos = 0) as H0
        by (by apply Qcle_antisym).
      split; [done|]. rewrite H0, Qcplus_0_l in Hsum. done. }
    rewrite Hq0. unfold Qcdiv. ring.
  - by case_decide.
Qed.
End step.

(** ** The position of the traded symbol *)

(** After a returning call the traded symbol's holding is the quantity of
    the position written back. *)
Lemma held_after state state' symbol side quantity price time :
  execute_trade state symbol side quantity price time = Return state' →
  held state' symbol
  = if decide (side = "buy") then held state symbol + quantity
    else held state symbol - quantity.
Proof.
  intros Hcall.
  destruct (execute_trade_Return_inv _ _ _ _ _ _ _ Hcall)
    as (P' & i & pos & pos' & Hens & HP & Hh & Hcase).
  pose proof (ensure_position_lookup _ _ _ _ _ Hens) as [_ Hsym].
  pose proof (ensure_position_held _ _ _ _ _ Hens) as Hheld.
  assert (Position.symbol pos' = symbol) as Hsym'
    by (by destruct Hcase as [(_&_&_&->)|(_&_&_&->)]).
  unfold held at 1.
  destruct state' as [c' P'' h']; simpl in HP; subst P''.
  rewrite (position_of_insert _ _ _ _ _ _ _ _ Hens Hsym'). simpl.
  destruct Hcase as [(Hs&_&_&->)|(Hs&_&_&->)]; simpl.
  - by rewrite decide_True, Hheld.
  - by rewrite decide_False, Hheld.
Qed.

(** The position [ensure_position] returns is the symbol's position, or
    the new empty one. *)
Lemma ensure_position_default state symbol P' i pos :
  ensure_position (positions state) symbol = (P', i, pos) →
  pos = default (Position.mk symbol 0 0) (position_of state symbol).
Proof.
  unfold ensure_position, position_of.
  destruct (list_find _ _) as [[j q]|]; by intros [= <- <- <-].
Qed.

Lemma position_of_symbol state symbol pos :
  position_of state symbol = Some pos → Position.symbol pos = symbol.
Proof.
  unfold position_of. intros ([i p] & Hfind & ->)%fmap_Some.
  apply list_find_Some in Hfind. tauto.
Qed.

(** A buy that can be paid, and a sale that is covered. *)
Lemma buy_position state symbol quantity price time :
  ¬ cash state < quantity * price →
  ∃ state',
    execute_trade state symbol "buy" quantity price time = Return state'
    ∧ cash state' = cash state - quantity * price
    ∧ position_of state' symbol
      = Some (bought (default (Position.mk symbol 0 0)
                        (position_of state symbol)) quantity price).
Proof.
  intros Hge.
  destruct (ensure_position (positions state) symbol)
    as [[P' i] pos] eqn:Hens.
  eexists. split; [by apply (execute_trade_buy_return _ _ _ _ _ _ P' i pos)|].
  split; [done|].
  rewrite <-(ensure_position_default _ _ _ _ _ Hens).
  apply (position_of_insert state _ _ _ pos); [done|]. simpl.
  by apply ensure_position_lookup in Hens as [_ ?].
Qed.

Lemma sell_position state symbol side quantity price time :
  side ≠ "buy" → ¬ held state symbol < quantity →
  ∃ state',
    execute_trade state symbol side quantity price time = Return state'
    ∧ cash state' = cash state + quantity * price
    ∧ position_of state' symbol
      = Some (sold (default (Position.mk symbol 0 0)
                      (position_of state symbol)) quantity).
Proof.
  intros Hside Hge.
  destruct (ensure_position (positions state) symbol)
    as [[P' i] pos] eqn:Hens.
  eexists. split; [by apply (execute_trade_sell_return _ _ _ _ _ _ P' i pos)|].
  split; [done|].
  rewrite <-(ensure_position_default _ _ _ _ _ Hens).
  apply (position_of_insert state _ _ _ pos); [done|]. simpl.
  by apply ensure_position_lookup in Hens as [_ ?].
Qed.

(** The first lot bought into an empty position, of at least [1e-9]
    units, sets the average price to the lot's price. *)
Lemma bought_fresh symbol quantity price :
  tiny ≤ quantity →
  bought (Position.mk symbol 0 0) quantity price
  = Position.mk symbol quantity price.
Proof.
  intros Hq. unfold bought. simpl.
  assert (0 < quantity) as Hpos
    by (eapply Qclt_le_trans; [apply tiny_pos | done]).
  rewrite Qcplus_0_l, max_l by done.
  f_equal. field. by apply Qc_pos_ne_0.
Qed.

(** A first lot below [1e-9] units is divided by [1e-9]. *)
Lemma bought_fresh_small symbol quantity price :
  quantity < tiny →
  bought (Position.mk symbol 0 0) quantity price
  = Position.mk symbol quantity (price * quantity / tiny).
Proof.
  intros Hq. unfold bought. simpl.
  rewrite Qcmult_0_l, !Qcplus_0_l.
  unfold max. by rewrite decide_True.
Qed.




(** ** Reading and writing the store *)

Section store.
Implicit Types (σ : Obj.store) (r s ps hs : Obj.ref).
Implicit Types (pl hl : list Obj.ref) (v d : PortfolioState).

Lemma run_bind {A B} (m : Obj.M A) (k : A → Obj.M B) σ :
  (m ≫= k) σ
  = match m σ with
    | Some (Return a, σ') => k a σ'
    | Some (Raise e, σ') => Some (Raise e, σ')
    | None => None
    end.
Proof. done. Qed.

Lemma get_state_spec σ s c ps hs :
  σ !! s = Some (Obj.PortfolioStateObj c ps hs) →
  Obj.get_state s σ = Some (Return (c, ps, hs), σ).
Proof. intros H. unfold Obj.get_state, Obj.get. by rewrite run_bind, H. Qed.

Lemma get_list_spec σ r items :
  σ !! r = Some (Obj.ListObj items) →
  Obj.get_list r σ = Some (Return items, σ).
Proof. intros H. unfold Obj.get_list, Obj.get. by rewrite run_bind, H. Qed.

Lemma get_position_spec σ r p :
  σ !! r = Some (Obj.PositionObj p) →
  Obj.get_position r σ = Some (Return p, σ).
Proof.
  intros H. unfold Obj.get_position, Obj.get. by rewrite run_bind, H.
Qed.

Lemma put_spec σ r o o' :
  σ !! r = Some o → Obj.put r o' σ = Some (Return (), <[r:=o']> σ).
Proof.
  intros H%lookup_lt_Some. unfold Obj.put. by rewrite decide_True.
Qed.

Lemma set_cash_spec σ s c ps hs c' :
  σ !! s = Some (Obj.PortfolioStateObj c ps hs) →
  Obj.set_cash s c' σ
  = Some (Return (), <[s:=Obj.PortfolioStateObj c' ps hs]> σ).
Proof.
  intros H. unfold Obj.set_cash.
  rewrite run_bind, (get_state_spec _ _ _ _ _ H). by eapply put_spec.
Qed.

Lemma set_quantity_spec σ r p q :
  σ !! r = Some (Obj.PositionObj p) →
  Obj.set_quantity r q σ
  = Some (Return (), <[r:=Obj.PositionObj (Position.set_quantity q p)]> σ).
Proof.
  intros H. unfold Obj.set_quantity.
  rewrite run_bind, (get_position_spec _ _ _ H). by eapply put_spec.
Qed.

Lemma set_avg_price_spec σ r p a :
  σ !! r = Some (Obj.PositionObj p) →
  Obj.set_avg_price r a σ
  = Some (Return (), <[r:=Obj.PositionObj (Position.set_avg_price a p)]> σ).
Proof.
  intros H. unfold Obj.set_avg_price.
  rewrite run_bind, (get_position_spec _ _ _ H). by eapply put_spec.
Qed.

Lemma append_spec σ l items r :
  σ !! l = Some (Obj.ListObj items) →
  Obj.append l r σ = Some (Return (), <[l:=Obj.ListObj (items ++ [r])]> σ).
Proof.
  intros H. unfold Obj.append.
  rewrite run_bind, (get_list_spec _ _ _ H). by eapply put_spec.
Qed.

Lemma alloc_all_spec os σ :
  Obj.alloc_all os σ
  = Some (Return (seq (length σ) (length os)), σ ++ os).
Proof.
  revert σ. induction os as [|o os IH]; intros σ; simpl.
  - by rewrite app_nil_r.
  - rewrite run_bind. unfold Obj.alloc at 1.
    rewrite run_bind, IH. simpl.
    rewrite length_app, <-app_assoc. simpl.
    by rewrite Nat.add_1_r.
Qed.

(** The objects just allocated are where their references say. *)
Lemma lookup_alloc_all σ os :
  Forall2 (λ r o, (σ ++ os) !! r = Some o) (seq (length σ) (length os)) os.
Proof.
  apply Forall2_same_length_lookup. split; [by rewrite length_seq|].
  intros i r o [-> Hi]%lookup_seq Ho.
  by rewrite lookup_app_r, Nat.add_comm, Nat.add_sub by lia.
Qed.

(** [dump] reads a state off its layout. *)
Lemma dump_layout σ s v :
  Obj.dump σ s = Some v ↔ ∃ ps hs pl hl, layout σ s v ps hs pl hl.
Proof.
  unfold Obj.dump, Obj.list_at. split.
  - destruct (σ !! s) as [[c ps hs| | |]|] eqn:Hs; try done.
    destruct (σ !! ps) as [[|pl| |]|] eqn:Hps; try done.
    destruct (σ !! hs) as [[|hl| |]|] eqn:Hhs; try done. simpl.
    destruct (mapM _ pl) as [P|] eqn:HP; [|done].
    destruct (mapM _ hl) as [H|] eqn:HH; [|done]. simpl.
    intros [= <-]. exists ps, hs, pl, hl.
    apply mapM_Some in HP, HH. split; simpl; try done.
    + eapply Forall2_impl; [exact HP|]. intros r p. unfold Obj.position_at.
      by destruct (σ !! r) as [[]|]; intros [= ->].
    + eapply Forall2_impl; [exact HH|]. intros r t. unfold Obj.trade_at.
      by destruct (σ !! r) as [[]|]; intros [= ->].
  - intros (ps & hs & pl & hl & [Hs Hps Hhs Hpl Hhl]).
    rewrite Hs, Hps, Hhs. simpl.
    rewrite (proj2 (mapM_Some _ pl (positions v))); simpl.
    2:{ eapply Forall2_impl; [exact Hpl|]. intros r p Hr.
        unfold Obj.position_at. by rewrite Hr. }
    rewrite (proj2 (mapM_Some _ hl (history v))); simpl.
    2:{ eapply Forall2_impl; [exact Hhl|]. intros r t Hr.
        unfold Obj.trade_at. by rewrite Hr. }
    by destruct v.
Qed.

(** Objects are never removed: what a state reads as is kept by any
    extension of the store. *)
Lemma layout_prefix σ σ' s v ps hs pl hl :
  σ `prefix_of` σ' → layout σ s v ps hs pl hl → layout σ' s v ps hs pl hl.
Proof.
  intros [κ ->] [Hs Hps Hhs Hpl Hhl].
  split; try by apply lookup_app_l_Some.
  - eapply Forall2_impl; [exact Hpl|].
    intros r p ?; by apply lookup_app_l_Some.
  - eapply Forall2_impl; [exact Hhl|].
    intros r p ?; by apply lookup_app_l_Some.
Qed.

Lemma dump_prefix σ σ' s v :
  σ `prefix_of` σ' → Obj.dump σ s = Some v → Obj.dump σ' s = Some v.
Proof.
  rewrite !dump_layout. intros Hpre (ps & hs & pl & hl & Hl).
  exists ps, hs, pl, hl. by eapply layout_prefix.
Qed.
End store.

(** ** Writes to a state that owns its objects *)

Section owned.
Context (base : nat) (σ : Obj.store) (s : Obj.ref) (v : PortfolioState).
Context (ps hs : Obj.ref) (pl hl : list Obj.ref).
Hypothesis Hown : owned base σ s v ps hs pl hl.

Lemma owned_base_le : (base ≤ length σ)%nat.
Proof using Hown.
  destruct Hown as [[Hs%lookup_lt_Some _ _ _ _] _ _ ? _ _ _]. lia.
Qed.

Lemma owned_set_cash c' :
  owned base (<[s:=Obj.PortfolioStateObj c' ps hs]> σ) s
    (mkPortfolioState c' (positions v) (history v)) ps hs pl hl.
Proof using Hown.
  destruct Hown as [[Hs Hps Hhs Hpl Hhl] ? ? ? ? ? ?].
  split; [split; simpl|done..].
  - apply list_lookup_insert_eq. by eapply lookup_lt_Some.
  - rewrite list_lookup_insert_ne; [done|]. intros ->. congruence.
  - rewrite list_lookup_insert_ne; [done|]. intros ->. congruence.
  - eapply Forall2_impl; [exact Hpl|]. intros r p Hr.
    rewrite list_lookup_insert_ne; [done|]. intros ->. congruence.
  - eapply Forall2_impl; [exact Hhl|]. intros r p Hr.
    rewrite list_lookup_insert_ne; [done|]. intros ->. congruence.
Qed.

Lemma owned_put_position i r p' :
  pl !! i = Some r →
  owned base (<[r:=Obj.PositionObj p']> σ) s
    (mkPortfolioState (cash v) (<[i:=p']> (positions v)) (history v))
    ps hs pl hl.
Proof using Hown.
  destruct Hown as [[Hs Hps Hhs Hpl Hhl] Hnd ? ? ? ? ?]. intros Hi.
  destruct (Forall2_lookup_l _ _ _ _ _ Hpl Hi) as (p & HPi & Hr).
  split; [split; simpl|done..].
  - rewrite list_lookup_insert_ne; [done|]. intros ->. congruence.
  - rewrite list_lookup_insert_ne; [done|]. intros ->. congruence.
  - rewrite list_lookup_insert_ne; [done|]. intros ->. congruence.
  - apply Forall2_same_length_lookup. split.
    { rewrite length_insert. by eapply Forall2_length. }
    intros j rj pj Hj HPj. destruct (decide (i = j)) as [->|Hne].
    + assert (rj = r) as -> by congruence.
      rewrite list_lookup_insert_eq in HPj by (by eapply lookup_lt_Some).
      injection HPj as <-.
      apply list_lookup_insert_eq. by eapply lookup_lt_Some.
    + rewrite list_lookup_insert_ne in HPj by done.
      rewrite list_lookup_insert_ne.
      * by eapply (Forall2_lookup_lr _ _ _ _ _ _ Hpl).
      * intros <-. apply Hne. by eapply (NoDup_lookup pl).
  - eapply Forall2_impl; [exact Hhl|]. intros r' t Hr'.
    rewrite list_lookup_insert_ne; [done|]. intros ->. congruence.
Qed.

(** Every reference of a layout is below the length of the store. *)
Lemma owned_lt_length r : r ∈ pl → (r < length σ)%nat.
Proof using Hown.
  destruct Hown as [[_ _ _ Hpl _] _ _ _ _ _ _].
  intros [i Hi]%list_elem_of_lookup.
  destruct (Forall2_lookup_l _ _ _ _ _ Hpl Hi) as (p & _ & Hr).
  by eapply lookup_lt_Some.
Qed.

Lemma owned_alloc_position p :
  owned base
    (<[ps:=Obj.ListObj (pl ++ [length σ])]> (σ ++ [Obj.PositionObj p])) s
    (mkPortfolioState (cash v) (positions v ++ [p]) (history v))
    ps hs (pl ++ [length σ]) hl.
Proof using Hown.
  pose proof owned_base_le. pose proof owned_lt_length as Hlt.
  destruct Hown as [[Hs Hps Hhs Hpl Hhl] Hnd ? ? ? ? ?].
  pose proof (lookup_lt_Some _ _ _ Hps).
  split; [split; simpl|..]; try done.
  - rewrite list_lookup_insert_ne by (intros ->; congruence).
    by apply lookup_app_l_Some.
  - apply list_lookup_insert_eq. rewrite length_app. simpl. lia.
  - rewrite list_lookup_insert_ne by done. by apply lookup_app_l_Some.
  - apply Forall2_app.
    + eapply Forall2_impl; [exact Hpl|]. intros r q Hr.
      rewrite list_lookup_insert_ne by (intros ->; congruence).
      by apply lookup_app_l_Some.
    + constructor; [|constructor].
      rewrite list_lookup_insert_ne by lia. by apply list_lookup_middle.
  - eapply Forall2_impl; [exact Hhl|]. intros r t Hr.
    rewrite list_lookup_insert_ne by (intros ->; congruence).
    by apply lookup_app_l_Some.
  - apply NoDup_app. split_and!; [done| |apply NoDup_singleton].
    intros r Hr%Hlt ->%list_elem_of_singleton. lia.
  - apply Forall_app. split; [done|]. by apply Forall_singleton.
Qed.

Lemma owned_alloc_trade t :
  owned base
    (<[hs:=Obj.ListObj (hl ++ [length σ])]> (σ ++ [Obj.TradeObj t])) s
    (mkPortfolioState (cash v) (positions v) (history v ++ [t]))
    ps hs pl (hl ++ [length σ]).
Proof using Hown.
  pose proof owned_base_le.
  destruct Hown as [[Hs Hps Hhs Hpl Hhl] Hnd ? ? ? ? ?].
  pose proof (lookup_lt_Some _ _ _ Hhs).
  split; [split; simpl|..]; try done.
  - rewrite list_lookup_insert_ne by (intros ->; congruence).
    by apply lookup_app_l_Some.
  - rewrite list_lookup_insert_ne by done. by apply lookup_app_l_Some.
  - apply list_lookup_insert_eq. rewrite length_app. simpl. lia.
  - eapply Forall2_impl; [exact Hpl|]. intros r q Hr.
    rewrite list_lookup_insert_ne by (intros ->; congruence).
    by apply lookup_app_l_Some.
  - apply Forall2_app.
    + eapply Forall2_impl; [exact Hhl|]. intros r q Hr.
      rewrite list_lookup_insert_ne by (intros ->; congruence).
      by apply lookup_app_l_Some.
    + constructor; [|constructor].
      rewrite list_lookup_insert_ne by lia. by apply list_lookup_middle.
Qed.

(** The writes above leave the store below [base] as it was. *)
Lemma take_base_put_position i r o :
  pl !! i = Some r → take base (<[r:=o]> σ) = take base σ.
Proof using Hown.
  intros Hi. apply take_insert_ge.
  destruct Hown as [_ _ _ _ _ _ Hpl].
  by apply (Forall_lookup_1 _ _ _ _ Hpl Hi).
Qed.

Lemma take_base_set_cash o : take base (<[s:=o]> σ) = take base σ.
Proof using Hown. apply take_insert_ge. by destruct Hown. Qed.

Lemma take_base_alloc r o o' :
  (base ≤ r)%nat → take base (<[r:=o]> (σ ++ [o'])) = take base σ.
Proof using Hown.
  intros Hr. rewrite take_insert_ge by done.
  apply take_app_le, owned_base_le.
Qed.
End owned.

(** ** The calls of [execute_trade], on the store *)

(** The copy made on entry owns all its objects, and nothing that was in
    the store is touched. *)
Lemma new_PortfolioState_spec (σ : Obj.store) (d : PortfolioState) :
  ∃ σ' s ps hs pl hl,
    Obj.new_PortfolioState d σ = Some (Return s, σ')
    ∧ owned (length σ) σ' s d ps hs pl hl
    ∧ take (length σ) σ' = σ.
Proof.
  unfold Obj.new_PortfolioState.
  rewrite run_bind, alloc_all_spec.
  set (σa := σ ++ (Obj.PositionObj <$> positions d)).
  set (pl := seq (length σ) (length (Obj.PositionObj <$> positions d))).
  rewrite run_bind. unfold Obj.alloc at 1.
  set (σb := σa ++ [Obj.ListObj pl]).
  rewrite run_bind, alloc_all_spec.
  set (σc := σb ++ (Obj.TradeObj <$> history d)).
  set (hl := seq (length σb) (length (Obj.TradeObj <$> history d))).
  rewrite run_bind. unfold Obj.alloc.
  set (σd := σc ++ [Obj.ListObj hl]).
  exists (σd ++ [Obj.PortfolioStateObj (cash d) (length σa) (length σc)]).
  exists (length σd), (length σa), (length σc), pl, hl.
  assert (length σ ≤ length σa)%nat by (unfold σa; rewrite length_app; lia).
  assert (length σa < length σb)%nat
    by (unfold σb; rewrite length_app; simpl; lia).
  assert (length σb ≤ length σc)%nat by (unfold σc; rewrite length_app; lia).
  assert (length σc < length σd)%nat
    by (unfold σd; rewrite length_app; simpl; lia).
  split; [done|]. split; [split; [split; simpl|..]|].
  - by apply list_lookup_middle.
  - apply lookup_app_l_Some, lookup_app_l_Some, lookup_app_l_Some.
    by apply list_lookup_middle.
  - apply lookup_app_l_Some. by apply list_lookup_middle.
  - pose proof (lookup_alloc_all σ (Obj.PositionObj <$> positions d)) as Hpl.
    apply Forall2_fmap_r in Hpl.
    eapply Forall2_impl; [exact Hpl|]. intros r p Hr. simpl in Hr.
    by do 4 apply lookup_app_l_Some.
  - pose proof (lookup_alloc_all σb (Obj.TradeObj <$> history d)) as Hhl.
    apply Forall2_fmap_r in Hhl.
    eapply Forall2_impl; [exact Hhl|]. intros r p Hr. simpl in Hr.
    by do 2 apply lookup_app_l_Some.
  - apply NoDup_seq.
  - lia.
  - lia.
  - lia.
  - lia.
  - apply Forall_seq. intros; lia.
  - unfold σd, σc, σb, σa. rewrite <-!app_assoc. apply take_app_length.
Qed.

(** The loop of [ensure_position] returns the object of the first
    position with the symbol, if there is one, and writes nothing. *)
Lemma find_position_spec (σ : Obj.store) pl (P : list Position.t) symbol :
  Forall2 (λ r p, σ !! r = Some (Obj.PositionObj p)) pl P →
  Obj.find_position pl symbol σ
  = Some (Return
            (match list_find (λ p, Position.symbol p = symbol) P with
             | Some (i, _) => pl !! i
             | None => None
             end), σ).
Proof.
  induction 1 as [|r p pl P Hr Hpl IH]; [done|].
  simpl. rewrite run_bind, (get_position_spec _ _ _ Hr).
  case_decide; [done|]. rewrite IH.
  by destruct (list_find _ P) as [[i q]|].
Qed.

Lemma ensure_position_spec base (σ : Obj.store) s v ps hs pl hl
    symbol P' i pos :
  owned base σ s v ps hs pl hl →
  ensure_position (positions v) symbol = (P', i, pos) →
  ∃ σ' r pl',
    Obj.ensure_position ps symbol σ = Some (Return r, σ')
    ∧ owned base σ' s (mkPortfolioState (cash v) P' (history v)) ps hs pl' hl
    ∧ pl' !! i = Some r
    ∧ σ' !! r = Some (Obj.PositionObj pos)
    ∧ take base σ' = take base σ.
Proof.
  intros Hown Hens.
  pose proof Hown as [[Hs Hps Hhs Hpl Hhl] Hnd ? ? ? ? ?].
  unfold Obj.ensure_position.
  rewrite run_bind, (get_list_spec _ _ _ Hps).
  rewrite run_bind, (find_position_spec _ _ _ _ Hpl).
  unfold ensure_position in Hens.
  destruct (list_find _ (positions v)) as [[j q]|] eqn:Hfind;
    injection Hens as <- <- <-.
  - apply list_find_Some in Hfind as (Hj & _ & _).
    destruct (Forall2_lookup_r _ _ _ _ _ Hpl Hj) as (r & Hr & Hσr).
    rewrite Hr. exists σ, r, pl. by split_and!.
  - rewrite run_bind. unfold Obj.alloc.
    rewrite run_bind, (append_spec _ _ pl)
      by (by apply lookup_app_l_Some).
    eexists _, (length σ), (pl ++ [length σ]). split_and!; [done|..].
    + apply (owned_alloc_position _ _ _ _ _ _ _ _ Hown).
    + rewrite lookup_app_r by (by rewrite (Forall2_length _ _ _ Hpl)).
      by rewrite (Forall2_length _ _ _ Hpl), Nat.sub_diag.
    + rewrite list_lookup_insert_ne
        by (apply lookup_lt_Some in Hps; lia).
      by apply list_lookup_middle.
    + by apply (take_base_alloc _ _ _ _ _ _ _ _ Hown).
Qed.

Lemma bind_Return {A B} (m : Obj.M A) (k : A → Obj.M B) (σ σ' : Obj.store) a :
  m σ = Some (Return a, σ') → (m ≫= k) σ = k a σ'.
Proof. intros H. by rewrite run_bind, H. Qed.

Lemma take_prefix {A} (l k : list A) : take (length l) k = l → l `prefix_of` k.
Proof. intros <-. apply prefix_take. Qed.

(** The last statement of [execute_trade]: the record is appended to
    the history list of the copy. *)
Lemma append_record_spec base (σ : Obj.store) s v ps hs pl hl record :
  owned base σ s v ps hs pl hl →
  ∃ σ' hl',
    (Obj.get_state s ≫= λ '(_, _, hs),
       Obj.alloc (Obj.TradeObj record) ≫= λ t,
         Obj.append hs t ≫= λ _, mret s) σ
    = Some (Return s, σ')
    ∧ owned base σ' s
        (mkPortfolioState (cash v) (positions v) (history v ++ [record]))
        ps hs pl hl'
    ∧ take base σ' = take base σ.
Proof.
  intros Hown.
  pose proof Hown as [[Hs Hps Hhs Hpl Hhl] Hnd ? ? ? ? ?].
  rewrite (bind_Return _ _ _ _ _ (get_state_spec _ _ _ _ _ Hs)).
  cbv beta iota. rewrite run_bind. unfold Obj.alloc.
  rewrite (bind_Return _ _ _ _ _ (append_spec _ _ hl _
             (lookup_app_l_Some _ _ _ _ Hhs))).
  eexists _, _. split_and!; [done|..].
  - apply (owned_alloc_trade _ _ _ _ _ _ _ _ Hown).
  - by apply (take_base_alloc _ _ _ _ _ _ _ _ Hown).
Qed.

(** [Obj.execute_trade] does on the store what [execute_trade] computes
    on values: it raises the same error, or returns a new object whose
    value is the state [execute_trade] returns; and it leaves every object
    that was in the store as it was. *)
Lemma execute_trade_simulation (σ : Obj.store) s v symbol side quantity price time :
  Obj.dump σ s = Some v →
  ∃ res σ',
    Obj.execute_trade s symbol side quantity price time σ = Some (res, σ')
    ∧ σ `prefix_of` σ'
    ∧ match res with
      | Raise e => execute_trade v symbol side quantity price time = Raise e
      | Return s' =>
          ∃ v',
            execute_trade v symbol side quantity price time = Return v'
            ∧ Obj.dump σ' s' = Some v'
            ∧ (length σ ≤ s')%nat
      end.
Proof.
  intros Hdump. unfold Obj.execute_trade.
  rewrite run_bind. unfold Obj.model_dump at 1. rewrite Hdump.
  destruct (new_PortfolioState_spec σ v)
    as (σ1 & s1 & ps & hs & pl & hl & Hnew & Hown1 & Htake1).
  rewrite (bind_Return _ _ _ _ _ Hnew).
  destruct (ensure_position (positions v) symbol)
    as [[P' i] pos] eqn:Hens.
  pose proof (owned_layout _ _ _ _ _ _ _ _ Hown1) as [Hs1 _ _ _ _].
  rewrite run_bind.
  destruct (decide (side = "buy")) as [Hside|Hside].
  - rewrite (bind_Return _ _ _ _ _ (get_state_spec _ _ _ _ _ Hs1)).
    cbv beta iota zeta.
    destruct (decide (cash v < quantity * price)) as [Hlt|Hge].
    + exists (Raise (ValueError "Insufficient cash")), σ1.
      split_and!; [done|by apply take_prefix|].
      by apply execute_trade_buy_raise.
    + rewrite (bind_Return _ _ _ _ _ (get_state_spec _ _ _ _ _ Hs1)).
      cbv beta iota zeta.
      rewrite (bind_Return _ _ _ _ _ (set_cash_spec _ _ _ _ _ _ Hs1)).
      pose proof (owned_set_cash _ _ _ _ _ _ _ _ Hown1
                    (cash v - quantity * price)) as Hown2.
      pose proof (owned_layout _ _ _ _ _ _ _ _ Hown2) as [Hs2 _ _ _ _].
      rewrite (bind_Return _ _ _ _ _ (get_state_spec _ _ _ _ _ Hs2)).
      cbv beta iota zeta.
      destruct (ensure_position_spec _ _ _ _ _ _ _ _ symbol P' i pos Hown2 Hens)
        as (σ3 & r & pl' & Hcall3 & Hown3 & Hi & Hr & Htake3).
      simpl in Hown3.
      rewrite (bind_Return _ _ _ _ _ Hcall3).
      rewrite (bind_Return _ _ _ _ _ (get_position_spec _ _ _ Hr)).
      rewrite (bind_Return _ _ _ _ _ (set_avg_price_spec _ _ _ _ Hr)).
      set (p4 := Position.set_avg_price _ pos).
      pose proof (owned_put_position _ _ _ _ _ _ _ _ Hown3 i r p4 Hi) as Hown4.
      simpl in Hown4.
      assert (<[r:=Obj.PositionObj p4]> σ3 !! r = Some (Obj.PositionObj p4))
        as Hr4 by (apply list_lookup_insert_eq; by eapply lookup_lt_Some).
      rewrite (set_quantity_spec _ _ _ _ Hr4).
      set (p5 := Position.set_quantity _ p4).
      pose proof (owned_put_position _ _ _ _ _ _ _ _ Hown4 i r p5 Hi) as Hown5.
      simpl in Hown5. rewrite !list_insert_insert_eq in Hown5.
      rewrite list_insert_insert_eq.
      destruct (append_record_spec _ _ _ _ _ _ _ _
                  (Trade.mk symbol side quantity price time) Hown5)
        as (σ6 & hl' & Hcall6 & Hown6 & Htake6).
      simpl in Hown6.
      exists (Return s1), σ6. split_and!; [done| |].
      * apply take_prefix.
        rewrite Htake6.
        rewrite (take_base_put_position _ _ _ _ _ _ _ _ Hown3 i r _ Hi).
        rewrite Htake3.
        by rewrite (take_base_set_cash _ _ _ _ _ _ _ _ Hown1).
      * eexists. split; [by apply (execute_trade_buy_return _ _ _ _ _ _ P' i pos)|].
        split; [|by eapply owned_state].
        apply dump_layout. exists ps, hs, pl', hl'.
        exact (owned_layout _ _ _ _ _ _ _ _ Hown6).
  - rewrite (bind_Return _ _ _ _ _ (get_state_spec _ _ _ _ _ Hs1)).
    cbv beta iota zeta.
    destruct (ensure_position_spec _ _ _ _ _ _ _ _ symbol P' i pos Hown1 Hens)
      as (σ3 & r & pl' & Hcall3 & Hown3 & Hi & Hr & Htake3).
    simpl in Hown3.
    rewrite (bind_Return _ _ _ _ _ Hcall3).
    rewrite (bind_Return _ _ _ _ _ (get_position_spec _ _ _ Hr)).
    pose proof (ensure_position_held _ _ _ _ _ Hens) as Hheld.
    destruct (decide (Position.quantity pos < quantity)) as [Hlt|Hge].
    + exists (Raise (ValueError "Insufficient shares")), σ3.
      split_and!; [done| |].
      * apply take_prefix. by rewrite Htake3.
      * apply execute_trade_sell_raise; [done|]. by rewrite <-Hheld.
    + pose proof (owned_layout _ _ _ _ _ _ _ _ Hown3) as [Hs3 _ _ _ _].
      simpl in Hs3.
      rewrite (bind_Return _ _ _ _ _ (get_state_spec _ _ _ _ _ Hs3)).
      cbv beta iota zeta.
      rewrite (bind_Return _ _ _ _ _ (set_cash_spec _ _ _ _ _ _ Hs3)).
      pose proof (owned_set_cash _ _ _ _ _ _ _ _ Hown3
                    (cash v + quantity * price)) as Hown4.
      simpl in Hown4.
      set (σ4 := <[s1:=_]> σ3) in *.
      assert (σ4 !! r = Some (Obj.PositionObj pos)) as Hr4.
      { destruct Hown4 as [[_ _ _ Hpl4 _] _ _ _ _ _ _]. simpl in Hpl4.
        destruct (Forall2_lookup_l _ _ _ _ _ Hpl4 Hi) as (p & HPi & Hp).
        apply ensure_position_lookup in Hens as [Hens _]. congruence. }
      rewrite (bind_Return _ _ _ _ _ (set_quantity_spec _ _ _ _ Hr4)).
      set (p5 := Position.set_quantity _ pos).
      assert (<[r:=Obj.PositionObj p5]> σ4 !! r = Some (Obj.PositionObj p5))
        as Hr5 by (apply list_lookup_insert_eq; by eapply lookup_lt_Some).
      rewrite (bind_Return _ _ _ _ _ (get_position_spec _ _ _ Hr5)).
      assert ((if decide (Position.quantity p5 = 0)
               then Obj.set_avg_price r 0 else mret ())
                (<[r:=Obj.PositionObj p5]> σ4)
              = Some (Return (),
                      <[r:=Obj.PositionObj (sold pos quantity)]> σ4)) as ->.
      { unfold sold. simpl. case_decide.
        - by rewrite (set_avg_price_spec _ _ _ _ Hr5), list_insert_insert_eq.
        - done. }
      pose proof (owned_put_position _ _ _ _ _ _ _ _ Hown4 i r
                    (sold pos quantity) Hi) as Hown5.
      simpl in Hown5.
      destruct (append_record_spec _ _ _ _ _ _ _ _
                  (Trade.mk symbol side quantity price time) Hown5)
        as (σ6 & hl' & Hcall6 & Hown6 & Htake6).
      simpl in Hown6.
      exists (Return s1), σ6. split_and!; [done| |].
      * apply take_prefix.
        rewrite Htake6.
        rewrite (take_base_put_position _ _ _ _ _ _ _ _ Hown4 i r _ Hi).
        unfold σ4. rewrite (take_base_set_cash _ _ _ _ _ _ _ _ Hown3).
        by rewrite Htake3.
      * eexists. split.
        { apply (execute_trade_sell_return _ _ _ _ _ _ P' i pos);
            [done| |done]. by rewrite <-Hheld. }
        split; [|by eapply owned_state].
        apply dump_layout. exists ps, hs, pl', hl'.
        exact (owned_layout _ _ _ _ _ _ _ _ Hown6).
Qed.

(** ** The ledger's properties *)

(** C1: a side that is neither "buy" nor "sell" is not refused.  On a
    portfolio of 5 units of X, a call with side "hold" returns, with the
    cash raised by [quantity * price], the position lowered by
    [quantity], and a "hold" record in the history. *)
Example hold_is_executed_as_a_sale :
  execute_trade portfolio_X "X" "hold" 1 2 "t"
  = Return (mkPortfolioState 2 [Position.mk "X" (float 4 1) (float 10 1)]
              [Trade.mk "X" "hold" 1 2 "t"]).
Proof. by_computation. Qed.




(** C3, no mutation: on a store in which [s] is a state object of value
    [v], a call of [execute_trade] has an outcome; whether it raises or
    returns, every object that was in the store is still there unchanged,
    so [s] still has the value [v]; and the object a call returns is a new
    one, not in the store before and so distinct from [s]. *)
Theorem execute_trade_never_mutates (σ : Obj.store) s v symbol side quantity price time :
  Obj.dump σ s = Some v →
  ∃ res σ',
    Obj.execute_trade s symbol side quantity price time σ = Some (res, σ')
    ∧ (∀ r o, σ !! r = Some o → σ' !! r = Some o)
    ∧ Obj.dump σ' s = Some v
    ∧ (∀ s', res = Return s' →
         s' ≠ s ∧ σ !! s' = None ∧ is_Some (Obj.dump σ' s')).
Proof.
  intros Hdump.
  destruct (execute_trade_simulation σ s v symbol side quantity price time Hdump)
    as (res & σ' & Hcall & Hpre & Hres).
  exists res, σ'. split_and!; [done| | |].
  - intros r o Hr. by eapply prefix_lookup_Some.
  - by eapply dump_prefix.
  - intros s' ->. destruct Hres as (v' & _ & Hdump' & Hfresh).
    assert (s < length σ)%nat as Hs.
    { apply dump_layout in Hdump as (ps & hs & pl & hl & [Hs _ _ _ _]).
      by eapply lookup_lt_Some. }
    split_and!; [lia|by apply lookup_ge_None_2|by eexists].
Qed.

Lemma execute_trade_never_mutates_witness :
  Obj.dump store_X 3 = Some portfolio_X
  ∧ ∃ res σ',
      Obj.execute_trade 3 "X" "sell" 1 2 "t" store_X = Some (res, σ')
      ∧ (∀ r o, store_X !! r = Some o → σ' !! r = Some o)
      ∧ Obj.dump σ' 3 = Some portfolio_X
      ∧ (∀ s', res = Return s' →
           s' ≠ 3%nat ∧ store_X !! s' = None ∧ is_Some (Obj.dump σ' s')).
Proof.
  split; [reflexivity|].
  apply (execute_trade_never_mutates store_X 3 portfolio_X).
  reflexivity.
Defined.

(** C4, solvency, amended: on the floats the code computes with, from a
    state whose cash is not negative, after each call of a run of
    returning calls with positive quantity and price the cash is never
    below zero; it is not negative whenever it is a number, that is,
    unless it is NaN. *)
Theorem cash_never_negative state trades states :
  (0 <=? F.cash state)%float = true →
  Forall F.valid_trade trades →
  F.run state trades = Return states →
  Forall
    (λ s, (F.cash s <? 0)%float = false
          ∧ ((F.cash s =? F.cash s)%float = true →
             (0 <=? F.cash s)%float = true))
    states.
Proof.
  intros Hcash%leb_0_not_negative Hvalid. revert state Hcash states.
  induction Hvalid as [|t trades [Hq%ltb_0_not_negative Hp%ltb_0_not_negative]
                         _ IH];
    intros state Hcash states; simpl.
  { intros [= <-]. constructor. }
  unfold F.apply_trade.
  destruct (F.execute_trade state _ _ _ _ _) as [state'|e] eqn:Hcall; [|done].
  destruct (F.run state' trades) as [states'|e] eqn:Hrun; [|done].
  intros [= <-].
  assert ((F.cash state' <? 0)%float = false) as Hcash'.
  { pose proof (mul_not_negative _ _ Hq Hp) as Hcost.
    apply float_execute_trade_cash in Hcall
      as [(_ & Hlt & ->)|(_ & ->)].
    - by apply sub_not_negative.
    - by apply add_not_negative. }
  constructor.
  - split; [done|]. by apply not_negative_leb_0.
  - by apply (IH state').
Qed.

Lemma cash_never_negative_witness :
  ∃ states,
    F.run float_scenario_start float_scenario_trades = Return states
    ∧ F.cash <$> states = [800; 400; 1000]%float
    ∧ Forall
        (λ s, (F.cash s <? 0)%float = false
              ∧ ((F.cash s =? F.cash s)%float = true →
                 (0 <=? F.cash s)%float = true))
        states.
Proof.
  eexists. split; [reflexivity|]. split; [reflexivity|].
  apply (cash_never_negative float_scenario_start float_scenario_trades).
  - reflexivity.
  - repeat constructor.
  - reflexivity.
Defined.

(** C4 as stated fails on floats: with a cash of 1e308 and 2 units of X,
    selling the 2 units at 1e308 overflows the cash to infinity, and a
    buy of 2 units at 1e308, whose cost is infinity too, is then not
    refused and leaves the cash at infinity minus infinity, which is
    NaN and not at or above zero.  Both trades have a positive quantity
    and price, and both calls return. *)
Lemma cash_overflow_counterexample :
  ((0 <=? F.cash rich_portfolio)%float = true
   ∧ Forall F.valid_trade rich_trades)
  ∧ ∃ state1 state2,
      F.run rich_portfolio rich_trades = Return [state1; state2]
      ∧ F.cash state1 = infinity
      ∧ F.cash state2 = nan
      ∧ (0 <=? F.cash state2)%float = false.
Proof.
  split.
  - split; [reflexivity|]. repeat constructor.
  - eexists _, _. split; [reflexivity|]. by split_and!.
Qed.

(** C5, selling: a call with side "sell" raises the insufficient-shares
    error exactly when the quantity asked is strictly above the quantity
    held, a symbol without position holding zero; so selling a positive
    quantity of a symbol without position always raises it.  When the
    call returns, cash has grown by [quantity * price] and the holding has
    shrunk by [quantity]. *)
Theorem sell_insufficient_shares_iff state symbol quantity price time :
  let call := execute_trade state symbol "sell" quantity price time in
  (call = Raise (ValueError "Insufficient shares")
   ↔ held state symbol < quantity)
  ∧ (¬ held state symbol < quantity → ∃ state', call = Return state')
  ∧ (position_of state symbol = None → 0 < quantity →
     call = Raise (ValueError "Insufficient shares"))
  ∧ (∀ state', call = Return state' →
       cash state' = cash state + quantity * price
       ∧ held state' symbol = held state symbol - quantity).
Proof.
  intros call.
  destruct (ensure_position (positions state) symbol)
    as [[P' i] pos] eqn:Hens.
  assert ("sell" ≠ "buy") as Hside by done.
  split_and!; [split|..].
  - intros Hcall.
    apply execute_trade_Raise_inv in Hcall as [(?&_)|(_&?&_)]; done.
  - by apply execute_trade_sell_raise.
  - intros Hge. eexists.
    by apply (execute_trade_sell_return _ _ _ _ _ _ P' i pos).
  - intros Hnone Hq. apply execute_trade_sell_raise; [done|].
    unfold held. by rewrite Hnone.
  - intros state' Hcall. split.
    + apply execute_trade_Return_inv in Hcall
        as (_ & _ & _ & _ & _ & _ & _ & [(?&_)|(_&_&->&_)]); done.
    + by rewrite (held_after _ _ _ _ _ _ _ Hcall), decide_False.
Qed.

Lemma sell_insufficient_shares_iff_witness :
  position_of portfolio_X "Y" = None
  ∧ execute_trade portfolio_X "Y" "sell" 1 (float 7 1) "t"
    = Raise (ValueError "Insufficient shares").
Proof.
  assert (position_of portfolio_X "Y" = None) as Hnone by reflexivity.
  split; [done|].
  destruct (sell_insufficient_shares_iff portfolio_X "Y" 1 (float 7 1) "t")
    as (_ & _ & Hraise & _).
  apply Hraise; [done|by_computation].
Defined.



(** C7, cost basis, amended: from a state in which no quantity is
    negative and every position of quantity zero has average price zero,
    the latter holds after each call of a run of returning calls whose
    quantities are not negative.  Selling the whole holding of a symbol
    leaves its position with quantity zero and average price zero, and a
    buy of at least [1e-9] units that follows sets the average price to
    [price * quantity / quantity], the buy's cost divided by its
    quantity; a smaller buy sets it to [price * quantity / 1e-9]. *)
Theorem basis_reset_invariant state :
  (∀ trades states,
     quantities_nonneg state → basis_reset state →
     Forall (λ t, 0 ≤ Trade.quantity t) trades →
     run state trades = Return states →
     Forall basis_reset states)
  ∧ (∀ symbol pos p1 t1 q2 p2 t2,
       position_of state symbol = Some pos →
       q2 * p2 ≤ cash state + Position.quantity pos * p1 →
       ∃ state1 state2 pos2,
         execute_trade state symbol "sell" (Position.quantity pos) p1 t1
         = Return state1
         ∧ position_of state1 symbol = Some (Position.mk symbol 0 0)
         ∧ execute_trade state1 symbol "buy" q2 p2 t2 = Return state2
         ∧ position_of state2 symbol = Some pos2
         ∧ (tiny ≤ q2 → pos2 = Position.mk symbol q2 (p2 * q2 / q2))
         ∧ (q2 < tiny → pos2 = Position.mk symbol q2 (p2 * q2 / tiny))).
Proof.
  split.
  - intros trades states Hpos Hbasis Hq Hrun.
    assert (Forall (λ s, quantities_nonneg s ∧ basis_reset s) states) as H.
    { revert Hrun. apply run_invariant with (V := λ t, 0 ≤ Trade.quantity t);
        [|done..].
      intros s t s' [Hs1 Hs2] Ht Hcall. split.
      - by eapply step_quantities_nonneg.
      - by eapply step_basis_reset. }
    eapply Forall_impl; [exact H|]. by intros s [_ ?].
  - intros symbol pos p1 t1 q2 p2 t2 Hpos Hcash.
    assert (held state symbol = Position.quantity pos) as Hheld
      by (unfold held; by rewrite Hpos).
    destruct (sell_position state symbol "sell" (Position.quantity pos) p1 t1)
      as (state1 & Hcall1 & Hcash1 & Hpos1); [done| |].
    { rewrite Hheld. apply Qcle_not_lt, Qcle_refl. }
    assert (position_of state1 symbol = Some (Position.mk symbol 0 0))
      as Hpos1'.
    { rewrite Hpos1, Hpos. simpl. unfold sold.
      rewrite (position_of_symbol _ _ _ Hpos).
      rewrite decide_True by ring. f_equal. f_equal. ring. }
    destruct (buy_position state1 symbol q2 p2 t2)
      as (state2 & Hcall2 & Hcash2 & Hpos2).
    { rewrite Hcash1. by apply Qcle_not_lt. }
    rewrite Hpos1' in Hpos2. simpl in Hpos2.
    exists state1, state2. eexists. split_and!; [done..| |].
    + intros Htiny. rewrite bought_fresh by done. f_equal.
      field. apply Qc_pos_ne_0.
      eapply Qclt_le_trans; [apply tiny_pos|done].
    + intros Hsmall. by apply bought_fresh_small.
Qed.

Lemma basis_reset_invariant_witness :
  Forall basis_reset scenario_states
  ∧ ∃ state1 state2,
      execute_trade portfolio_after_buys "X" "sell" (float 4 1) (float 150 1)
        "t3" = Return state1
      ∧ position_of state1 "X" = Some (Position.mk "X" 0 0)
      ∧ execute_trade state1 "X" "buy" (float 3 1) (float 7 1) "t4"
        = Return state2
      ∧ position_of state2 "X"
        = Some (Position.mk "X" (float 3 1) (float 7 1)).
Proof.
  destruct (basis_reset_invariant scenario_start) as [Hruns _].
  destruct (basis_reset_invariant portfolio_after_buys) as [_ Hsell].
  split.
  - apply (Hruns scenario_trades).
    + constructor.
    + constructor.
    + repeat constructor; by_computation.
    + by_computation.
  - destruct (Hsell "X" (Position.mk "X" (float 4 1) (float 150 1))
                (float 150 1) "t3" (float 3 1) (float 7 1) "t4")
      as (state1 & state2 & pos2 & Hcall1 & Hpos1 & Hcall2 & Hpos2 & Hbig & _).
    + reflexivity.
    + by_computation.
    + exists state1, state2. split_and!; [done..|].
      rewrite Hpos2. f_equal. rewrite Hbig by by_computation.
      by_computation.
Defined.

(** C7 as stated fails in two ways.  On small lots: after selling the
    whole holding, a buy of [1e-10] units at price 1 leaves an average
    price of 1/10, not 1.  And on floats the cost of a lot divided by its
    quantity need not be its price: after selling the whole holding, a
    buy of 3 units at 0.1 leaves an average price of
    0.10000000000000002, which Python's [==] tells from 0.1. *)
Lemma basis_after_buy_counterexample :
  let state :=
    mkPortfolioState (float 10 1) [Position.mk "X" 1 (float 5 1)] [] in
  ((∃ state1 state2 pos2,
      execute_trade state "X" "sell" 1 1 "t1" = Return state1
      ∧ position_of state1 "X" = Some (Position.mk "X" 0 0)
      ∧ execute_trade state1 "X" "buy" dust 1 "t2" = Return state2
      ∧ position_of state2 "X" = Some pos2
      ∧ Position.quantity pos2 = dust
      ∧ Position.avg_price pos2 = float 1 10)
   ∧ ¬ (∃ state1 state2 pos2,
          execute_trade state "X" "sell" 1 1 "t1" = Return state1
          ∧ execute_trade state1 "X" "buy" dust 1 "t2" = Return state2
          ∧ position_of state2 "X" = Some pos2
          ∧ Position.avg_price pos2 = 1))
  ∧ ∃ state1 state2 pos2,
      F.execute_trade float_portfolio_X "X" "sell" 1 1 "t1" = Return state1
      ∧ F.position_of state1 "X" = Some (F.Position.mk "X" 0 0)
      ∧ F.execute_trade state1 "X" "buy" 3 0.1 "t2" = Return state2
      ∧ F.position_of state2 "X" = Some pos2
      ∧ F.Position.quantity pos2 = 3%float
      ∧ F.Position.avg_price pos2 = 0.10000000000000002%float
      ∧ (F.Position.avg_price pos2 =? 0.1)%float = false.
Proof.
  intros state. split; [split|].
  - eexists _, _, _.
    split_and!; [reflexivity|by_computation|reflexivity..| |]; by_computation.
  - intros (state1 & state2 & pos2 & Hcall1 & Hcall2 & Hpos & Havg).
    vm_compute in Hcall1. injection Hcall1 as <-.
    vm_compute in Hcall2. injection Hcall2 as <-.
    vm_compute in Hpos. injection Hpos as <-.
    revert Havg. by_computation.
  - eexists _, _, _. by split_and!.
Qed.

(** C8, inventory: from a state whose positions all have a quantity that
    is not negative, after each call of a run of returning calls with
    positive quantity and price every position's quantity is not
    negative. *)
Theorem inventory_invariant state trades states :
  quantities_nonneg state →
  Forall valid_trade trades →
  run state trades = Return states →
  Forall quantities_nonneg states.
Proof.
  apply (run_invariant quantities_nonneg valid_trade).
  intros s t s' Hpos [Hq Hp] Hcall.
  eapply step_quantities_nonneg; [exact Hcall|done|].
  by apply Qclt_le_weak.
Qed.

Lemma inventory_invariant_witness :
  quantities_nonneg scenario_start
  ∧ Forall valid_trade scenario_trades
  ∧ run scenario_start scenario_trades = Return scenario_states
  ∧ Forall quantities_nonneg scenario_states.
Proof.
  assert (quantities_nonneg scenario_start) as H1 by constructor.
  assert (Forall valid_trade scenario_trades) as H2
    by (repeat constructor; by_computation).
  assert (run scenario_start scenario_trades = Return scenario_states) as H3
    by by_computation.
  split_and!; [done..|].
  exact (inventory_invariant scenario_start scenario_trades scenario_states
           H1 H2 H3).
Defined.

(** C9, history: a call that returns appends one record to the history,
    made of the call's symbol, side, quantity, price and time; the records
    already there keep their place.  Over calls that may raise, the caller
    keeping its state then, the history only grows; over a run of
    returning calls, the records appended are the calls, in call order. *)
Theorem history_append_only state :
  (∀ symbol side quantity price time state',
     execute_trade state symbol side quantity price time = Return state' →
     let record := Trade.mk symbol side quantity price time in
     history state' = history state ++ [record]
     ∧ length (history state') = S (length (history state))
     ∧ (∀ i r, history state !! i = Some r → history state' !! i = Some r)
     ∧ last (history state') = Some record)
  ∧ (∀ trades,
       history state `prefix_of` history (foldl apply_or_keep state trades)
       ∧ (length (history state)
          ≤ length (history (foldl apply_or_keep state trades)))%nat)
  ∧ (∀ trades states,
       run state trades = Return states →
       length states = length trades
       ∧ history (default state (last states)) = history state ++ trades).
Proof.
  assert (∀ s symbol side quantity price time s',
            execute_trade s symbol side quantity price time = Return s' →
            history s' = history s ++ [Trade.mk symbol side quantity price time])
    as Hstep.
  { intros s symbol side quantity price time s' Hcall.
    by apply execute_trade_Return_inv in Hcall
      as (_ & _ & _ & _ & _ & _ & ? & _). }
  assert (∀ trades s,
            history s `prefix_of` history (foldl apply_or_keep s trades))
    as Hprefix.
  { induction trades as [|[sym side q p tm] trades IH]; intros s; [done|].
    simpl. etrans; [|apply IH]. unfold apply_or_keep, apply_trade. simpl.
    destruct (execute_trade s sym side q p tm) as [s'|] eqn:Hcall; [|done].
    rewrite (Hstep _ _ _ _ _ _ _ Hcall). by apply prefix_app_r. }
  split_and!.
  - intros symbol side quantity price time state' Hcall record.
    pose proof (Hstep _ _ _ _ _ _ _ Hcall) as ->. fold record.
    split_and!; [done| | |].
    + rewrite length_app. simpl. lia.
    + intros i r Hi. by apply lookup_app_l_Some.
    + apply last_snoc.
  - intros trades. split; [done|]. by apply prefix_length.
  - intros trades. revert state.
    induction trades as [|[sym side q p tm] trades IH]; intros s states Hrun.
    + injection Hrun as <-. simpl. by rewrite app_nil_r.
    + apply run_cons_inv in Hrun as (s' & states' & Ht & Hrun & ->).
      destruct (IH _ _ Hrun) as [Hlen Hhist]. split; [simpl; lia|].
      unfold apply_trade in Ht. simpl in Ht.
      rewrite (Hstep _ _ _ _ _ _ _ Ht) in Hhist.
      rewrite <-app_assoc in Hhist. simpl in Hhist. rewrite <-Hhist.
      destruct states' as [|s'' states']; [done|].
      rewrite last_cons_cons.
      destruct (last (s'' :: states')) eqn:Hlast; [done|].
      by apply last_None in Hlast.
Qed.

Lemma history_append_only_witness :
  run scenario_start scenario_trades = Return scenario_states
  ∧ history (default scenario_start (last scenario_states))
    = history scenario_start ++ scenario_trades.
Proof.
  assert (run scenario_start scenario_trades = Return scenario_states) as Hrun
    by by_computation.
  split; [done|].
  destruct (history_append_only scenario_start) as (_ & _ & Hruns).
  by apply (Hruns scenario_trades scenario_states).
Defined.

(** C10, any side but "buy" is a sale: the call raises the
    insufficient-shares error when the quantity asked is above the
    holding, and otherwise returns with cash grown by [quantity * price],
    the holding shrunk by [quantity], and a history record appended whose
    side is the string given. *)
Theorem other_side_sells state symbol side quantity price time :
  side ≠ "buy" →
  let call := execute_trade state symbol side quantity price time in
  (held state symbol < quantity →
   call = Raise (ValueError "Insufficient shares"))
  ∧ (¬ held state symbol < quantity →
     ∃ state',
       call = Return state'
       ∧ cash state' = cash state + quantity * price
       ∧ held state' symbol = held state symbol - quantity
       ∧ history state'
         = history state ++ [Trade.mk symbol side quantity price time]).
Proof.
  intros Hside call. split.
  - by apply execute_trade_sell_raise.
  - intros Hge.
    destruct (ensure_position (positions state) symbol)
      as [[P' i] pos] eqn:Hens.
    pose proof (execute_trade_sell_return state symbol side quantity price
                  time P' i pos Hside Hge Hens) as Hcall.
    eexists. split; [exact Hcall|].
    split_and!; [done| |done].
    by rewrite (held_after _ _ _ _ _ _ _ Hcall), decide_False.
Qed.

Lemma other_side_sells_witness :
  "hold" ≠ "buy"
  ∧ ¬ held portfolio_X "X" < 1
  ∧ ∃ state',
      execute_trade portfolio_X "X" "hold" 1 2 "t" = Return state'
      ∧ cash state' = cash portfolio_X + 1 * 2
      ∧ held state' "X" = held portfolio_X "X" - 1
      ∧ history state'
        = history portfolio_X ++ [Trade.mk "X" "hold" 1 2 "t"].
Proof.
  assert ("hold" ≠ "buy") as Hside by by_computation.
  assert (¬ held portfolio_X "X" < 1) as Hheld by by_computation.
  split_and!; [done..|].
  exact (proj2 (other_side_sells portfolio_X "X" "hold" 1 2 "t" Hside) Hheld).
Defined.

(** ** Further properties *)

(** X1, the two embeddings agree: on a store in which [s] is a state
    object of value [v], [Obj.execute_trade] raises the error
    [execute_trade] raises on [v], or returns an object whose value is the
    state [execute_trade] returns. *)
Theorem execute_trade_refines (σ : Obj.store) s v symbol side quantity price time :
  Obj.dump σ s = Some v →
  ∃ res σ',
    Obj.execute_trade s symbol side quantity price time σ = Some (res, σ')
    ∧ match res with
      | Raise e => execute_trade v symbol side quantity price time = Raise e
      | Return s' =>
          ∃ v',
            execute_trade v symbol side quantity price time = Return v'
            ∧ Obj.dump σ' s' = Some v'
      end.
Proof.
  intros Hdump.
  destruct (execute_trade_simulation σ s v symbol side quantity price time
              Hdump) as (res & σ' & Hcall & _ & Hres).
  exists res, σ'. split; [done|].
  destruct res as [s'|e]; [|done].
  destruct Hres as (v' & ? & ? & _). by exists v'.
Qed.

Lemma execute_trade_refines_witness :
  Obj.dump store_X 3 = Some portfolio_X
  ∧ ∃ res σ',
      Obj.execute_trade 3 "X" "hold" 1 2 "t" store_X = Some (res, σ')
      ∧ match res with
        | Raise e => execute_trade portfolio_X "X" "hold" 1 2 "t" = Raise e
        | Return s' =>
            ∃ v',
              execute_trade portfolio_X "X" "hold" 1 2 "t" = Return v'
              ∧ Obj.dump σ' s' = Some v'
        end.
Proof.
  split; [reflexivity|].
  apply (execute_trade_refines store_X 3 portfolio_X). reflexivity.
Defined.

(** Writing at the index of an element that fails a test an element that
    fails it too does not change what [list_find] finds. *)
Lemma list_find_insert_other {A} (Q : A → Prop) `{!∀ x, Decision (Q x)}
    (l : list A) i x y :
  l !! i = Some x → ¬ Q x → ¬ Q y →
  list_find Q (<[i:=y]> l) = list_find Q l.
Proof.
  revert i. induction l as [|z l IH]; intros i Hi Hx Hy; [done|].
  destruct i as [|i]; simpl in *.
  - injection Hi as ->. by rewrite !decide_False.
  - case_decide; [done|]. by rewrite (IH i).
Qed.

Lemma list_find_snoc_other {A} (Q : A → Prop) `{!∀ x, Decision (Q x)}
    (l : list A) z :
  ¬ Q z → list_find Q (l ++ [z]) = list_find Q l.
Proof.
  intros Hz. destruct (list_find Q l) as [[i x]|] eqn:Hfind.
  - by apply list_find_app_l.
  - rewrite list_find_app_r by done. simpl. by rewrite decide_False.
Qed.

(** X2, other symbols: a call that returns leaves the position of every
    symbol but the traded one as it was. *)
Theorem other_positions_unchanged state state' symbol side quantity price time symbol' :
  execute_trade state symbol side quantity price time = Return state' →
  symbol' ≠ symbol →
  position_of state' symbol' = position_of state symbol'.
Proof.
  intros Hcall Hne.
  apply execute_trade_Return_inv in Hcall
    as (P' & i & pos & pos' & Hens & HP & _ & Hcase).
  destruct (ensure_position_lookup _ _ _ _ _ Hens) as [Hi Hsym].
  assert (Position.symbol pos' = symbol) as Hsym'
    by (by destruct Hcase as [(_&_&_&->)|(_&_&_&->)]).
  unfold position_of. rewrite HP. f_equal.
  rewrite (list_find_insert_other _ _ _ pos) by congruence.
  destruct (ensure_position_positions _ _ _ _ _ Hens)
    as [[-> _]|(-> & _ & -> & _)]; [done|].
  by apply list_find_snoc_other.
Qed.

Lemma other_positions_unchanged_witness :
  ∃ state',
    execute_trade portfolio_X "Y" "buy" 0 1 "t" = Return state'
    ∧ position_of state' "X" = position_of portfolio_X "X".
Proof.
  eexists. split; [reflexivity|].
  apply (other_positions_unchanged portfolio_X _ "Y" "buy" 0 1 "t" "X").
  - reflexivity.
  - by_computation.
Defined.

(** The scenario of the ledger's description: from cash 1000, buying
    2 X at 100 leaves cash 800 and 2 X at average price 100; buying 2 more
    at 200 leaves cash 400 and 4 X at average price 150; selling 4 at 150
    leaves cash 1000, X at quantity 0 and average price 0, and three
    history records. *)
Example scenario_run :
  run scenario_start scenario_trades = Return scenario_states.
Proof. by_computation. Qed.

(** ** The endpoints of [backend/app.py] *)

Lemma held_nonneg state symbol :
  quantities_nonneg state → 0 ≤ held state symbol.
Proof.
  unfold quantities_nonneg, held, position_of. intros Hall.
  destruct (list_find _ _) as [[i p]|] eqn:Hfind; simpl; [|done].
  apply list_find_Some in Hfind as (Hi & _).
  by apply (Forall_lookup_1 _ _ _ _ Hall Hi).
Qed.

Lemma quotes_nonneg : prices_nonneg quotes.
Proof.
  intros symbol price. unfold quotes. case_decide; [|done].
  intros [= <-]. by_computation.
Qed.

Section paper_trade.
Context (md : string → latest_close) (utcnow : string).
Context (t : TradeInput.t) (dir : gmap string PortfolioState).

Lemma paper_trade_Respond_inv state price dir' :
  App.paper_trade md utcnow t dir = (Respond (state, price), dir') →
  ∃ user,
    App.load_user (TradeInput.user_id t) dir = Some user
    ∧ md (TradeInput.symbol t) = Close price
    ∧ execute_trade user (TradeInput.symbol t) (TradeInput.side t)
        (TradeInput.quantity t) price utcnow = Return state
    ∧ dir' = App.save_user (TradeInput.user_id t) state dir.
Proof.
  unfold App.paper_trade.
  destruct (App.load_user _ _) as [user|]; [|done].
  destruct (md _) as [p|]; [|done].
  destruct (execute_trade _ _ _ _ _ _) as [s|[m]] eqn:Hcall; [|done].
  intros [= <- <- <-]. by exists user.
Qed.

Lemma paper_trade_Return user price state :
  App.load_user (TradeInput.user_id t) dir = Some user →
  md (TradeInput.symbol t) = Close price →
  execute_trade user (TradeInput.symbol t) (TradeInput.side t)
    (TradeInput.quantity t) price utcnow = Return state →
  App.paper_trade md utcnow t dir
  = (Respond (state, price), App.save_user (TradeInput.user_id t) state dir).
Proof. unfold App.paper_trade. by intros -> -> ->. Qed.

Lemma paper_trade_Raise user price message :
  App.load_user (TradeInput.user_id t) dir = Some user →
  md (TradeInput.symbol t) = Close price →
  execute_trade user (TradeInput.symbol t) (TradeInput.side t)
    (TradeInput.quantity t) price utcnow = Raise (ValueError message) →
  App.paper_trade md utcnow t dir
  = (HTTPException 500 ("Failed to execute paper trade: " +:+ message), dir).
Proof. unfold App.paper_trade. by intros -> -> ->. Qed.

End paper_trade.

Lemma handle_lookup dir r user_id state' :
  App.handle dir r !! user_id = Some state' →
  dir !! user_id = Some state'
  ∨ (∃ req, r = App.Init req
       ∧ state' = mkPortfolioState (InitRequest.cash req) [] [])
  ∨ (∃ md utcnow t user price,
       r = App.PaperTrade md utcnow t
       ∧ dir !! user_id = Some user
       ∧ md (TradeInput.symbol t) = Close price
       ∧ execute_trade user (TradeInput.symbol t) (TradeInput.side t)
           (TradeInput.quantity t) price utcnow = Return state').
Proof.
  destruct r as [req|md utcnow t]; simpl.
  - unfold App.save_user.
    destruct (decide (InitRequest.user_id req = user_id)) as [<-|Hne].
    + rewrite lookup_insert_eq. intros [= <-]. right. left. by exists req.
    + rewrite lookup_insert_ne by done. by left.
  - destruct (App.paper_trade md utcnow t dir) as [[[state price]|status detail] dir']
      eqn:Hcall; simpl.
    + apply paper_trade_Respond_inv in Hcall
        as (user & Hload & Hmd & Hexec & ->).
      unfold App.save_user.
      destruct (decide (TradeInput.user_id t = user_id)) as [<-|Hne].
      * rewrite lookup_insert_eq. intros [= <-]. right. right.
        by exists md, utcnow, t, user, price.
      * rewrite lookup_insert_ne by done. by left.
    + unfold App.paper_trade in Hcall.
      destruct (App.load_user _ _) as [user|]; [|by injection Hcall as _ _ <-; left].
      destruct (md _) as [p|]; [|by injection Hcall as _ _ <-; left].
      destruct (execute_trade _ _ _ _ _ _) as [s|[m]]; [done|].
      injection Hcall as _ _ <-. by left.
Qed.

(** X4, no write on failure: when [paper_trade] raises an
    [HTTPException] the data directory is as before; the status is 404
    when the user has no file and 500 otherwise. *)
Theorem paper_trade_error_keeps_files md utcnow t dir status detail dir' :
  App.paper_trade md utcnow t dir = (HTTPException status detail, dir') →
  dir' = dir
  ∧ (status = 404%nat ∧ App.load_user (TradeInput.user_id t) dir = None
     ∨ status = 500%nat
       ∧ is_Some (App.load_user (TradeInput.user_id t) dir)).
Proof.
  unfold App.paper_trade.
  destruct (App.load_user _ _) as [user|].
  - destruct (md _) as [p|].
    + destruct (execute_trade _ _ _ _ _ _) as [s|[m]]; [done|].
      intros [= <- <- <-]. split; [done|]. right. by split.
    + intros [= <- <- <-]. split; [done|]. right. by split.
  - intros [= <- <- <-]. split; [done|]. by left.
Qed.

Lemma paper_trade_error_keeps_files_witness :
  let t := TradeInput.mk "bob" "X" "buy" 1 in
  App.paper_trade quotes "t" t data_dir
  = (HTTPException 404 "user not found; call /api/init first", data_dir)
  ∧ App.load_user "bob" data_dir = None.
Proof.
  intros t.
  assert (App.paper_trade quotes "t" t data_dir
          = (HTTPException 404 "user not found; call /api/init first",
             data_dir)) as Hcall by reflexivity.
  split; [done|].
  destruct (paper_trade_error_keeps_files quotes "t" t data_dir _ _ _ Hcall)
    as [_ [[_ Hnone]|[Hs _]]]; [exact Hnone|discriminate Hs].
Defined.

(** X5, refusals of the ledger: for a user with a file and a symbol with
    a price, a buy that costs more than the cash, and an order of another
    side for more than is held, are answered with status 500 and the
    message of the ledger, and nothing is written. *)
Theorem paper_trade_insufficient md utcnow t dir user price :
  App.load_user (TradeInput.user_id t) dir = Some user →
  md (TradeInput.symbol t) = Close price →
  (TradeInput.side t = "buy" → cash user < TradeInput.quantity t * price →
   App.paper_trade md utcnow t dir
   = (HTTPException 500 "Failed to execute paper trade: Insufficient cash",
      dir))
  ∧ (TradeInput.side t ≠ "buy" →
     held user (TradeInput.symbol t) < TradeInput.quantity t →
     App.paper_trade md utcnow t dir
     = (HTTPException 500
          "Failed to execute paper trade: Insufficient shares", dir)).
Proof.
  intros Hload Hmd. split.
  - intros Hside Hlt.
    apply (paper_trade_Raise _ _ _ _ user price "Insufficient cash");
      [done..|].
    rewrite Hside. by apply execute_trade_buy_raise.
  - intros Hside Hlt.
    apply (paper_trade_Raise _ _ _ _ user price "Insufficient shares");
      [done..|].
    by apply execute_trade_sell_raise.
Qed.

Lemma paper_trade_insufficient_witness :
  App.paper_trade quotes "t" (TradeInput.mk "ann" "X" "buy" (float 3 1))
    data_dir
  = (HTTPException 500 "Failed to execute paper trade: Insufficient cash",
     data_dir)
  ∧ App.paper_trade quotes "t" (TradeInput.mk "ann" "X" "sell" (float 5 1))
      data_dir
    = (HTTPException 500
         "Failed to execute paper trade: Insufficient shares", data_dir).
Proof.
  split.
  - apply (paper_trade_insufficient quotes "t"
             (TradeInput.mk "ann" "X" "buy" (float 3 1)) data_dir
             portfolio_after_buys (float 150 1));
      [reflexivity|reflexivity|reflexivity|by_computation].
  - apply (paper_trade_insufficient quotes "t"
             (TradeInput.mk "ann" "X" "sell" (float 5 1)) data_dir
             portfolio_after_buys (float 150 1));
      [reflexivity|reflexivity|by_computation|by_computation].
Defined.

(** X6, a fill is saved: when [paper_trade] responds, the fill price is
    the latest close of the symbol, the state in the response is the one
    the ledger returned for the stored state, it is what [load_user]
    gives afterwards, its history is the stored one followed by the
    order, and the files of the other users are as before. *)
Theorem paper_trade_saves_fill md utcnow t dir state price dir' :
  App.paper_trade md utcnow t dir = (Respond (state, price), dir') →
  md (TradeInput.symbol t) = Close price
  ∧ App.load_user (TradeInput.user_id t) dir' = Some state
  ∧ (∀ user_id, user_id ≠ TradeInput.user_id t →
       App.load_user user_id dir' = App.load_user user_id dir)
  ∧ ∃ user,
      App.load_user (TradeInput.user_id t) dir = Some user
      ∧ execute_trade user (TradeInput.symbol t) (TradeInput.side t)
          (TradeInput.quantity t) price utcnow = Return state
      ∧ history state
        = history user
          ++ [Trade.mk (TradeInput.symbol t) (TradeInput.side t)
                (TradeInput.quantity t) price utcnow].
Proof.
  intros (user & Hload & Hmd & Hexec & ->)%paper_trade_Respond_inv.
  unfold App.load_user, App.save_user in *.
  split_and!; [done| |..].
  - by rewrite lookup_insert_eq.
  - intros user_id Hne. by rewrite lookup_insert_ne.
  - exists user. split_and!; [done..|].
    by apply execute_trade_Return_inv in Hexec
      as (_ & _ & _ & _ & _ & _ & -> & _).
Qed.

Lemma paper_trade_saves_fill_witness :
  let t := TradeInput.mk "ann" "X" "sell" (float 4 1) in
  let state :=
    mkPortfolioState (float 1000 1) [Position.mk "X" 0 0]
      (take 2 scenario_trades
       ++ [Trade.mk "X" "sell" (float 4 1) (float 150 1) "t3"]) in
  ∃ dir',
    App.paper_trade quotes "t3" t data_dir
    = (Respond (state, float 150 1), dir')
    ∧ App.load_user "ann" dir' = Some state.
Proof.
  intros t state.
  assert (App.paper_trade quotes "t3" t data_dir
          = (Respond (state, float 150 1),
             App.save_user "ann" state data_dir)) as Hcall
    by by_computation.
  eexists. split; [exact Hcall|].
  by destruct (paper_trade_saves_fill _ _ _ _ _ _ _ Hcall) as (_ & Hload & _).
Defined.

(** X7, negative quantities: the quantity of an order is not checked.
    For a user with cash and quantities not negative and a symbol with a
    positive price, an order of a negative quantity is never refused: as
    a buy it subtracts [quantity * price], which is not positive, from
    the cash and adds the negative quantity to the holding; with another
    side it adds [quantity * price] to the cash, whatever the cash is,
    and subtracts the negative quantity from the holding. *)
Theorem paper_trade_negative_quantity md utcnow t dir user price :
  App.load_user (TradeInput.user_id t) dir = Some user →
  md (TradeInput.symbol t) = Close price →
  0 ≤ cash user → quantities_nonneg user →
  0 < price → TradeInput.quantity t < 0 →
  ∃ state,
    App.paper_trade md utcnow t dir
    = (Respond (state, price), App.save_user (TradeInput.user_id t) state dir)
    ∧ (TradeInput.side t = "buy" →
       cash state = cash user - TradeInput.quantity t * price
       ∧ held state (TradeInput.symbol t)
         = held user (TradeInput.symbol t) + TradeInput.quantity t)
    ∧ (TradeInput.side t ≠ "buy" →
       cash state = cash user + TradeInput.quantity t * price
       ∧ held state (TradeInput.symbol t)
         = held user (TradeInput.symbol t) - TradeInput.quantity t).
Proof.
  intros Hload Hmd Hcash Hq Hprice Hneg.
  assert (TradeInput.quantity t * price < 0) as Hcost.
  { rewrite <-(Qcmult_0_l price). by apply Qcmult_lt_mono_pos_r. }
  destruct (decide (TradeInput.side t = "buy")) as [Hside|Hside].
  - destruct (buy_position user (TradeInput.symbol t) (TradeInput.quantity t)
                price utcnow) as (state & Hexec & Hc & _).
    { apply Qcle_not_lt. apply Qclt_le_weak.
      by eapply Qclt_le_trans. }
    rewrite <-Hside in Hexec. exists state.
    split; [by apply (paper_trade_Return _ _ _ _ user)|].
    split; [intros _|done]. split; [done|].
    rewrite (held_after _ _ _ _ _ _ _ Hexec). by rewrite decide_True.
  - destruct (sell_position user (TradeInput.symbol t) (TradeInput.side t)
                (TradeInput.quantity t) price utcnow)
      as (state & Hexec & Hc & _); [done| |].
    { apply Qcle_not_lt. apply Qclt_le_weak.
      eapply Qclt_le_trans; [done|]. by apply held_nonneg. }
    exists state.
    split; [by apply (paper_trade_Return _ _ _ _ user)|].
    split; [done|intros _]. split; [done|].
    rewrite (held_after _ _ _ _ _ _ _ Hexec). by rewrite decide_False.
Qed.

Lemma paper_trade_negative_quantity_witness :
  ∃ state,
    App.paper_trade quotes "t"
      (TradeInput.mk "ann" "X" "sell" (float (-4) 1)) data_dir
    = (Respond (state, float 150 1), App.save_user "ann" state data_dir)
    ∧ cash state = float (-200) 1
    ∧ held state "X" = float 8 1.
Proof.
  destruct (paper_trade_negative_quantity quotes "t"
              (TradeInput.mk "ann" "X" "sell" (float (-4) 1)) data_dir
              portfolio_after_buys (float 150 1))
    as (state & Hcall & _ & Hsell).
  - reflexivity.
  - reflexivity.
  - by_computation.
  - apply Forall_singleton. by_computation.
  - by_computation.
  - by_computation.
  - exists state. split; [exact Hcall|].
    destruct Hsell as (Hc & Hh); [by_computation|].
    simpl in Hc, Hh. split.
    + rewrite Hc. by_computation.
    + rewrite Hh. by_computation.
Defined.

(** X8, the invariants at the endpoints: when in every file of a data
    directory the cash is not below zero, no quantity is negative and the
    average price is zero where the quantity is zero, this is still so
    whatever requests to [init_user] and [paper_trade] are served, as
    long as no request gives a negative cash or quantity and no price is
    negative. *)
Theorem serve_keeps_portfolios_sound requests dir :
  Forall request_nonneg requests →
  map_Forall
    (λ _ state,
       ¬ cash state < 0 ∧ quantities_nonneg state ∧ basis_reset state)
    dir →
  map_Forall
    (λ _ state,
       ¬ cash state < 0 ∧ quantities_nonneg state ∧ basis_reset state)
    (App.serve requests dir).
Proof.
  unfold App.serve. intros Hreqs. revert dir.
  induction Hreqs as [|r requests Hr _ IH]; intros dir Hdir; [done|].
  simpl. apply IH. intros user_id state' Hlookup.
  apply handle_lookup in Hlookup
    as [Hold|[(req & -> & ->)|(md & utcnow & t & user & price & -> & Hold
                                & Hmd & Hexec)]].
  - by apply (Hdir user_id).
  - simpl in Hr. split_and!; [by apply Qcle_not_lt|by apply Forall_nil..].
  - destruct Hr as [Hmarket Hq].
    destruct (Hdir _ _ Hold) as (Hcash%Qcnot_lt_le & Hqs & Hbasis).
    split_and!.
    + apply Qcle_not_lt.
      apply (step_cash_nonneg _ _ _ _ _ _ _ Hexec); [done|].
      apply Qcmult_nonneg_nonneg; [done|]. by apply (Hmarket _ _ Hmd).
    + by apply (step_quantities_nonneg _ _ _ _ _ _ _ Hexec).
    + by apply (step_basis_reset _ _ _ _ _ _ _ Hexec).
Qed.

Lemma serve_keeps_portfolios_sound_witness :
  map_Forall
    (λ _ state,
       ¬ cash state < 0 ∧ quantities_nonneg state ∧ basis_reset state)
    (App.serve
       [App.Init (InitRequest.mk "bob" (float 500 1));
        App.PaperTrade quotes "t1" (TradeInput.mk "bob" "X" "buy" 2);
        App.PaperTrade quotes "t2" (TradeInput.mk "ann" "X" "hold" 1)]
       data_dir).
Proof.
  apply serve_keeps_portfolios_sound.
  - repeat apply Forall_cons_2; [| | |apply Forall_nil_2].
    + simpl. by_computation.
    + split; [apply quotes_nonneg|by_computation].
    + split; [apply quotes_nonneg|by_computation].
  - apply map_Forall_singleton. split_and!.
    + by_computation.
    + apply Forall_singleton. by_computation.
    + apply Forall_singleton. intros Hq. exfalso. revert Hq. by_computation.
Defined.

(** X9, [init_user] starts over: it asks nothing about the user.  After
    it the user's file holds the cash of the request and no position or
    order, whatever it held before, the files of the other users are as
    before, and [get_portfolio] reports that cash as the total value, no
    row and no trade. *)
Theorem init_user_starts_over req dir md :
  let fresh := mkPortfolioState (InitRequest.cash req) [] [] in
  let dir' := (App.init_user req dir).2 in
  (App.init_user req dir).1 = Respond fresh
  ∧ App.load_user (InitRequest.user_id req) dir' = Some fresh
  ∧ (∀ user_id, user_id ≠ InitRequest.user_id req →
       App.load_user user_id dir' = App.load_user user_id dir)
  ∧ App.get_portfolio md (InitRequest.user_id req) dir'
    = Respond
        (Report.mk fresh []
           (Metrics.mk (InitRequest.cash req) (InitRequest.cash req)
              0 0 0 0 0 0)).
Proof.
  intros fresh dir'. subst dir'. simpl.
  unfold App.get_portfolio, App.load_user, App.save_user.
  rewrite lookup_insert_eq. split_and!; [done..| |].
  - intros user_id Hne. by rewrite lookup_insert_ne.
  - simpl. by rewrite Qcplus_0_r.
Qed.

(** ** [get_portfolio]: the rows *)

Lemma value_positions_foldl md positions a rows :
  foldl
    (λ '(positions_value, positions_data) pos,
       let row := App.position_row md pos in
       (positions_value + Row.value row, positions_data ++ [row]))
    (a, rows) positions
  = (foldl Qcplus a (Row.value <$> (App.position_row md <$> positions)),
     rows ++ (App.position_row md <$> positions)).
Proof.
  revert a rows. induction positions as [|pos positions IH]; intros a rows.
  - simpl. by rewrite app_nil_r.
  - rewrite !fmap_cons. cbn [foldl]. rewrite IH. f_equal.
    by rewrite <-app_assoc.
Qed.

Lemma value_positions_spec md positions :
  App.value_positions md positions
  = (foldl Qcplus 0 (Row.value <$> (App.position_row md <$> positions)),
     App.position_row md <$> positions).
Proof. unfold App.value_positions. by rewrite value_positions_foldl. Qed.

Lemma get_portfolio_Respond md user_id dir state :
  App.load_user user_id dir = Some state →
  ∃ metrics,
    App.get_portfolio md user_id dir
    = Respond (Report.mk state (App.position_row md <$> positions state)
                 metrics)
    ∧ Metrics.positions_value metrics
      = foldl Qcplus 0 (Row.value <$> (App.position_row md <$> positions state))
    ∧ Metrics.total_value metrics
      = cash state + Metrics.positions_value metrics
    ∧ Metrics.cash metrics = cash state
    ∧ Metrics.total_trades metrics = length (history state)
    ∧ Metrics.winning_trades metrics
      = App.winning_trades (App.count_trades (history state))
    ∧ Metrics.losing_trades metrics
      = App.losing_trades (App.count_trades (history state))
    ∧ Metrics.total_pnl metrics
      = App.total_pnl (App.count_trades (history state))
    ∧ Metrics.win_rate metrics
      = if decide (0 < length (history state))%nat
        then App.of_nat (App.winning_trades (App.count_trades (history state)))
             / App.of_nat (length (history state)) * float 100 1
        else 0.
Proof.
  intros Hload. unfold App.get_portfolio. rewrite Hload.
  rewrite value_positions_spec. eexists. split; [reflexivity|].
  by split_and!.
Qed.

Lemma get_portfolio_Respond_inv md user_id dir report :
  App.get_portfolio md user_id dir = Respond report →
  App.load_user user_id dir = Some (Report.state report).
Proof.
  unfold App.get_portfolio.
  destruct (App.load_user _ _) as [state|]; [|done].
  destruct (App.value_positions _ _). by intros [= <-].
Qed.

Lemma position_row_accounts md pos :
  let row := App.position_row md pos in
  Row.symbol row = Position.symbol pos
  ∧ Row.quantity row = Position.quantity pos
  ∧ Row.avg_price row = Position.avg_price pos
  ∧ Row.value row = Position.quantity pos * Row.current_price row
  ∧ Row.pnl row
    = (Row.current_price row - Position.avg_price pos) * Position.quantity pos.
Proof.
  unfold App.position_row, App.fallback_row.
  destruct (md _) as [current_price|]; [case_decide|]; simpl;
    split_and!; try done; ring.
Qed.

(** A row is computed from the price of the market, or is the fallback
    row. *)
Lemma position_row_cases md pos :
  let row := App.position_row md pos in
  (∃ current_price,
     md (Position.symbol pos) = Close current_price
     ∧ Position.avg_price pos ≠ 0
     ∧ Row.current_price row = current_price
     ∧ Row.value row = Position.quantity pos * current_price
     ∧ Row.pnl row
       = (current_price - Position.avg_price pos) * Position.quantity pos
     ∧ Row.pnl_percent row
       = (current_price - Position.avg_price pos) / Position.avg_price pos
         * float 100 1)
  ∨ ((Position.avg_price pos = 0
      ∨ ∃ message, md (Position.symbol pos) = NoClose message)
     ∧ Row.current_price row = Position.avg_price pos
     ∧ Row.value row = Position.quantity pos * Position.avg_price pos
     ∧ Row.pnl row = 0
     ∧ Row.pnl_percent row = 0).
Proof.
  unfold App.position_row, App.fallback_row.
  destruct (md _) as [current_price|message] eqn:Hmd; [case_decide|]; simpl.
  - right. split_and!; [by left|done..].
  - left. exists current_price. by split_and!.
  - right. split_and!; [right; by exists message|done..].
Qed.

(** X10, the rows: [get_portfolio] reports one row for each position of
    the stored state, in their order, with its symbol, quantity and
    average price.  When the market has a price for the symbol and the
    average price is not zero, the row has that price as current price,
    the quantity times it as value, the difference of the price and the
    average price times the quantity as profit, and that difference
    divided by the average price, times 100, as percentage; otherwise it
    is the fallback row.  The value of the positions is the sum of the
    rows' values, added up from zero in the order of the rows, and the
    total value is the cash plus that sum. *)
Theorem get_portfolio_rows_add_up md user_id dir state :
  App.load_user user_id dir = Some state →
  ∃ report,
    App.get_portfolio md user_id dir = Respond report
    ∧ Report.state report = state
    ∧ Forall2
        (λ pos row,
           Row.symbol row = Position.symbol pos
           ∧ Row.quantity row = Position.quantity pos
           ∧ Row.avg_price row = Position.avg_price pos
           ∧ ((∃ current_price,
                 md (Position.symbol pos) = Close current_price
                 ∧ Position.avg_price pos ≠ 0
                 ∧ Row.current_price row = current_price
                 ∧ Row.value row = Position.quantity pos * current_price
                 ∧ Row.pnl row
                   = (current_price - Position.avg_price pos)
                     * Position.quantity pos
                 ∧ Row.pnl_percent row
                   = (current_price - Position.avg_price pos)
                     / Position.avg_price pos * float 100 1)
              ∨ ((Position.avg_price pos = 0
                  ∨ ∃ message, md (Position.symbol pos) = NoClose message)
                 ∧ Row.current_price row = Position.avg_price pos
                 ∧ Row.value row
                   = Position.quantity pos * Position.avg_price pos
                 ∧ Row.pnl row = 0
                 ∧ Row.pnl_percent row = 0)))
        (positions state) (Report.positions report)
    ∧ Metrics.positions_value (Report.metrics report)
      = foldl Qcplus 0 (Row.value <$> Report.positions report)
    ∧ Metrics.total_value (Report.metrics report)
      = cash state + Metrics.positions_value (Report.metrics report)
    ∧ Metrics.cash (Report.metrics report) = cash state.
Proof.
  intros Hload.
  destruct (get_portfolio_Respond md _ _ _ Hload)
    as (metrics & Hcall & Hvalue & Htotal & Hcash & _).
  eexists. split; [exact Hcall|]. simpl. split_and!; [done| |done..].
  apply Forall2_fmap_r, Forall_Forall2_diag, Forall_forall.
  intros pos _.
  destruct (position_row_accounts md pos) as (Hs & Hq & Ha & _).
  split_and!; [done..|]. apply position_row_cases.
Qed.

Lemma get_portfolio_rows_add_up_witness :
  ∃ report,
    App.get_portfolio quotes "ann" data_dir = Respond report
    ∧ Report.positions report
      = [Row.mk "X" (float 4 1) (float 150 1) (float 150 1) (float 600 1) 0 0]
    ∧ Metrics.total_value (Report.metrics report) = float 1000 1.
Proof.
  destruct (get_portfolio_rows_add_up quotes "ann" data_dir
              portfolio_after_buys) as (report & Hcall & _); [reflexivity|].
  exists report. split; [exact Hcall|].
  assert (App.get_portfolio quotes "ann" data_dir
          = Respond
              (Report.mk portfolio_after_buys
                 [Row.mk "X" (float 4 1) (float 150 1) (float 150 1)
                    (float 600 1) 0 0]
                 (Metrics.mk (float 1000 1) (float 400 1) (float 600 1) 0 2
                    0 0 0))) as Heq by by_computation.
  rewrite Heq in Hcall. by injection Hcall as <-.
Defined.

(** X11, the fallback row: a position whose symbol has no price, or whose
    average price is zero, whatever the market quotes for it, is reported
    at its average price, with that as current price, the quantity at the
    average price as value, and no profit. *)
Theorem get_portfolio_fallback_row md user_id dir state i pos :
  App.load_user user_id dir = Some state →
  positions state !! i = Some pos →
  (∃ message, md (Position.symbol pos) = NoClose message)
  ∨ Position.avg_price pos = 0 →
  ∃ report,
    App.get_portfolio md user_id dir = Respond report
    ∧ Report.positions report !! i
      = Some (Row.mk (Position.symbol pos) (Position.quantity pos)
                (Position.avg_price pos) (Position.avg_price pos)
                (Position.quantity pos * Position.avg_price pos) 0 0).
Proof.
  intros Hload Hi Hcase.
  destruct (get_portfolio_Respond md _ _ _ Hload) as (metrics & Hcall & _).
  eexists. split; [exact Hcall|]. simpl.
  rewrite list_lookup_fmap, Hi. simpl. f_equal.
  unfold App.position_row.
  destruct Hcase as [[message ->]|Hzero]; [done|].
  destruct (md _); [|done]. by rewrite decide_True.
Qed.

Lemma get_portfolio_fallback_row_witness :
  let free := Position.mk "X" (float 4 1) 0 in
  let dir : gmap string PortfolioState :=
    {[ "ann" := mkPortfolioState 0 [free] [] ]} in
  ∃ report,
    App.get_portfolio quotes "ann" dir = Respond report
    ∧ Report.positions report !! 0%nat
      = Some (Row.mk "X" (float 4 1) 0 0 (float 4 1 * 0) 0 0).
Proof.
  intros free dir.
  apply (get_portfolio_fallback_row quotes "ann" dir
           (mkPortfolioState 0 [free] []) 0 free).
  - reflexivity.
  - reflexivity.
  - right. reflexivity.
Defined.

(** ** [get_portfolio]: the statistics *)

Lemma pending_buys_insert tracker symbol buys :
  (pending_buys (<[symbol:=buys]> tracker)
   + length (default [] (tracker !! symbol))
   = pending_buys tracker + length buys)%nat.
Proof.
  assert (∀ (j1 j2 : string) (z1 z2 : list (Qc * Qc)) (y : nat),
            (length z1 + (length z2 + y) = length z2 + (length z1 + y))%nat)
    as Hcomm by (intros; lia).
  unfold pending_buys.
  destruct (tracker !! symbol) as [old|] eqn:Hold; simpl.
  - rewrite <-insert_delete_eq.
    rewrite map_fold_insert_L; [|by intros; apply Hcomm|by apply lookup_delete_eq].
    rewrite (map_fold_delete_L _ _ symbol old tracker);
      [|by intros; apply Hcomm|done].
    lia.
  - rewrite map_fold_insert_L; [|by intros; apply Hcomm|done]. lia.
Qed.

Lemma count_trade_buy acc trade :
  Trade.side trade = "buy" →
  App.winning_trades (App.count_trade acc trade) = App.winning_trades acc
  ∧ App.losing_trades (App.count_trade acc trade) = App.losing_trades acc
  ∧ App.total_pnl (App.count_trade acc trade) = App.total_pnl acc
  ∧ pending_buys (App.position_tracker (App.count_trade acc trade))
    = S (pending_buys (App.position_tracker acc)).
Proof.
  intros Hside. unfold App.count_trade. rewrite decide_True by done. simpl.
  split_and!; [done..|].
  pose proof (pending_buys_insert (App.position_tracker acc)
                (Trade.symbol trade)
                (default [] (App.position_tracker acc !! Trade.symbol trade)
                 ++ [(Trade.price trade, Trade.quantity trade)])) as H.
  rewrite length_app in H. simpl in H. lia.
Qed.

Lemma count_trade_sell acc trade :
  Trade.side trade = "sell" →
  (App.winning_trades acc ≤ App.winning_trades (App.count_trade acc trade)
   ∧ App.losing_trades acc ≤ App.losing_trades (App.count_trade acc trade)
   ∧ App.winning_trades (App.count_trade acc trade)
     + App.losing_trades (App.count_trade acc trade)
     ≤ S (App.winning_trades acc + App.losing_trades acc)
   ∧ App.winning_trades (App.count_trade acc trade)
     + App.losing_trades (App.count_trade acc trade)
     + pending_buys (App.position_tracker (App.count_trade acc trade))
     ≤ App.winning_trades acc + App.losing_trades acc
       + pending_buys (App.position_tracker acc))%nat.
Proof.
  intros Hside. unfold App.count_trade.
  rewrite decide_False by (by rewrite Hside).
  rewrite decide_True by done.
  destruct (App.position_tracker acc !! Trade.symbol trade)
    as [[|buy_data rest]|] eqn:Hbuys; [lia| |lia].
  simpl.
  pose proof (pending_buys_insert (App.position_tracker acc)
                (Trade.symbol trade) rest) as H.
  rewrite Hbuys in H. simpl in H.
  repeat case_decide; lia.
Qed.

Lemma count_trade_other acc trade :
  Trade.side trade ≠ "buy" → Trade.side trade ≠ "sell" →
  App.count_trade acc trade = acc.
Proof.
  intros Hbuy Hsell. unfold App.count_trade.
  by rewrite !decide_False.
Qed.

Lemma count_trades_bound history acc :
  let acc' := foldl App.count_trade acc history in
  (App.winning_trades acc ≤ App.winning_trades acc'
   ∧ App.losing_trades acc ≤ App.losing_trades acc'
   ∧ App.winning_trades acc' + App.losing_trades acc'
     ≤ App.winning_trades acc + App.losing_trades acc
       + length (with_side "sell" history)
   ∧ App.winning_trades acc' + App.losing_trades acc'
     + pending_buys (App.position_tracker acc')
     ≤ App.winning_trades acc + App.losing_trades acc
       + pending_buys (App.position_tracker acc)
       + length (with_side "buy" history))%nat.
Proof.
  revert acc. induction history as [|trade history IH]; intros acc; simpl.
  { lia. }
  specialize (IH (App.count_trade acc trade)). simpl in IH.
  unfold with_side in *. rewrite !filter_cons.
  destruct (decide (Trade.side trade = "buy")) as [Hbuy|Hbuy].
  - destruct (count_trade_buy acc trade Hbuy) as (Hw & Hl & _ & Hp).
    rewrite decide_False by (by rewrite Hbuy). simpl. lia.
  - destruct (decide (Trade.side trade = "sell")) as [Hsell|Hsell].
    + pose proof (count_trade_sell acc trade Hsell). simpl. lia.
    + rewrite count_trade_other in IH |- * by done. lia.
Qed.

Lemma length_with_sides history :
  (length (with_side "buy" history) + length (with_side "sell" history)
   ≤ length history)%nat.
Proof.
  unfold with_side. induction history as [|trade history IH]; [done|].
  rewrite !filter_cons. simpl.
  destruct (decide (Trade.side trade = "buy")) as [Hbuy|Hbuy].
  - rewrite decide_False by (by rewrite Hbuy). simpl. lia.
  - case_decide; simpl; lia.
Qed.

Lemma of_nat_nonneg n : 0 ≤ App.of_nat n.
Proof.
  unfold App.of_nat. rewrite <-Z2Qc_inj_0. apply (proj1 (Z2Qc_inj_le _ _)). lia.
Qed.

Lemma win_rate_bound (w n : nat) :
  (0 < n)%nat → (2 * w ≤ n)%nat →
  0 ≤ App.of_nat w / App.of_nat n * float 100 1
  ∧ App.of_nat w / App.of_nat n * float 100 1 ≤ float 50 1.
Proof.
  intros Hn Hw.
  assert (0 < App.of_nat n) as Hpos.
  { unfold App.of_nat. rewrite <-Z2Qc_inj_0. apply (proj1 (Z2Qc_inj_lt _ _)). lia. }
  assert (2 * App.of_nat w ≤ App.of_nat n) as Hle.
  { unfold App.of_nat. rewrite <-Z2Qc_inj_2, <-Z2Qc_inj_mul.
    apply (proj1 (Z2Qc_inj_le _ _)). lia. }
  pose proof (Qcinv_pos _ Hpos) as Hinv.
  assert (0 ≤ App.of_nat w / App.of_nat n) as Hratio.
  { apply Qcmult_nonneg_nonneg; [apply of_nat_nonneg|by apply Qclt_le_weak]. }
  assert (2 * (App.of_nat w / App.of_nat n) ≤ 1) as Hhalf.
  { pose proof (Qcmult_le_mono_nonneg_r _ _ (/ App.of_nat n)
                  (Qclt_le_weak _ _ Hinv) Hle) as H.
    rewrite Qcmult_inv_r in H by (by apply Qc_pos_ne_0).
    unfold Qcdiv. by rewrite Qcmult_assoc. }
  assert (float 100 1 = float 50 1 * 2) as -> by by_computation.
  split.
  - apply Qcmult_nonneg_nonneg; [done|by_computation].
  - rewrite Qcmult_comm, <-Qcmult_assoc.
    rewrite <-(Qcmult_1_r (float 50 1)) at 2.
    apply Qcmult_le_mono_nonneg_l; [by_computation|done].
Qed.

(** X12, the win rate: in the statistics of [get_portfolio] a trade is
    counted as won or lost only when a record of side sell meets a
    waiting record of side buy of its symbol, and each buy is met once.
    So the won and lost trades together are at most the sells and at most
    the buys of the history, hence at most half of all trades; the win
    rate, a percentage of all trades, is between 0 and 50. *)
Theorem get_portfolio_win_rate md user_id dir report :
  App.get_portfolio md user_id dir = Respond report →
  let history := history (Report.state report) in
  let metrics := Report.metrics report in
  let counted :=
    (Metrics.winning_trades metrics + Metrics.losing_trades metrics)%nat in
  Metrics.total_trades metrics = length history
  ∧ (counted ≤ length (with_side "sell" history))%nat
  ∧ (counted ≤ length (with_side "buy" history))%nat
  ∧ (2 * counted ≤ Metrics.total_trades metrics)%nat
  ∧ 0 ≤ Metrics.win_rate metrics
  ∧ Metrics.win_rate metrics ≤ float 50 1.
Proof.
  intros Hcall h metrics counted.
  pose proof (get_portfolio_Respond_inv _ _ _ _ Hcall) as Hload.
  destruct (get_portfolio_Respond md _ _ _ Hload)
    as (metrics' & Hcall' & _ & _ & _ & Htrades & Hw & Hl & _ & Hrate).
  rewrite Hcall in Hcall'. injection Hcall' as Hreport.
  assert (metrics = metrics') as <- by (subst metrics; by rewrite Hreport).
  fold h in Htrades, Hw, Hl, Hrate. subst counted.
  pose proof (count_trades_bound h (App.mk_tally 0 0 0 ∅)) as Hbound.
  simpl in Hbound. fold (App.count_trades h) in Hbound.
  rewrite <-Hw, <-Hl in Hbound.
  pose proof (length_with_sides h) as Hsides.
  assert (pending_buys ∅ = 0%nat) as Hempty by done.
  split_and!; [done|lia..| |].
  - rewrite Hrate. case_decide; [|done].
    apply win_rate_bound; [done|]. rewrite <-Hw. lia.
  - rewrite Hrate. case_decide; [|by_computation].
    apply win_rate_bound; [done|]. rewrite <-Hw. lia.
Qed.

Lemma get_portfolio_win_rate_witness :
  let report :=
    Report.mk
      (mkPortfolioState (float 1000 1) [Position.mk "X" 0 0] scenario_trades)
      [Row.mk "X" 0 0 0 0 0 0]
      (Metrics.mk (float 1000 1) (float 1000 1) 0 (float 100 1) 3 1 0
         (float 100 3)) in
  App.get_portfolio quotes "ann" scenario_dir = Respond report
  ∧ Metrics.win_rate (Report.metrics report) ≤ float 50 1.
Proof.
  intros report.
  assert (App.get_portfolio quotes "ann" scenario_dir = Respond report)
    as Hcall by by_computation.
  split; [exact Hcall|].
  by destruct (get_portfolio_win_rate _ _ _ _ Hcall) as (_ & _ & _ & _ & _ & H).
Defined.

Lemma count_trades_snoc history trade :
  App.count_trades (history ++ [trade])
  = App.count_trade (App.count_trades history) trade.
Proof. unfold App.count_trades. by rewrite foldl_app. Qed.

(** X13, orders of an unknown side: an order whose side is neither buy
    nor sell that [paper_trade] fills is executed as a sale, and
    [get_portfolio] then counts one trade more, but the same won and lost
    trades and the same total profit as before. *)
Theorem unknown_side_is_sold_but_not_counted
    md utcnow t dir state price dir' md' report report' :
  TradeInput.side t ≠ "buy" → TradeInput.side t ≠ "sell" →
  App.paper_trade md utcnow t dir = (Respond (state, price), dir') →
  App.get_portfolio md' (TradeInput.user_id t) dir = Respond report →
  App.get_portfolio md' (TradeInput.user_id t) dir' = Respond report' →
  let before := Report.metrics report in
  let after := Report.metrics report' in
  cash (Report.state report')
  = cash (Report.state report) + TradeInput.quantity t * price
  ∧ held (Report.state report') (TradeInput.symbol t)
    = held (Report.state report) (TradeInput.symbol t) - TradeInput.quantity t
  ∧ Metrics.total_trades after = S (Metrics.total_trades before)
  ∧ Metrics.winning_trades after = Metrics.winning_trades before
  ∧ Metrics.losing_trades after = Metrics.losing_trades before
  ∧ Metrics.total_pnl after = Metrics.total_pnl before.
Proof.
  intros Hbuy Hsell Hcall Hget Hget' before after.
  apply paper_trade_Respond_inv in Hcall as (user & Hload & Hmd & Hexec & ->).
  pose proof (get_portfolio_Respond_inv _ _ _ _ Hget) as Hload0.
  pose proof (get_portfolio_Respond_inv _ _ _ _ Hget') as Hload'.
  unfold App.load_user, App.save_user in Hload, Hload0, Hload', Hget'.
  rewrite lookup_insert_eq in Hload'. injection Hload' as Hstate'.
  rewrite Hload in Hload0. injection Hload0 as Hstate.
  destruct (get_portfolio_Respond md' _ _ _ Hload)
    as (m & Hm & _ & _ & _ & Ht & Hw & Hl & Hp & _).
  rewrite Hget in Hm. injection Hm as Hm.
  destruct (get_portfolio_Respond md' (TradeInput.user_id t)
              (<[TradeInput.user_id t:=state]> dir) state)
    as (m' & Hm' & _ & _ & _ & Ht' & Hw' & Hl' & Hp' & _);
    [apply lookup_insert_eq|].
  rewrite Hget' in Hm'. injection Hm' as Hm'.
  assert (before = m) as -> by (subst before; by rewrite Hm).
  assert (after = m') as -> by (subst after; by rewrite Hm').
  rewrite <-Hstate', <-Hstate.
  pose proof (held_after _ _ _ _ _ _ _ Hexec) as Hheld.
  rewrite decide_False in Hheld by done.
  apply execute_trade_Return_inv in Hexec
    as (_ & _ & _ & _ & _ & _ & Hh & [(?&_)|(_ & _ & Hc & _)]); [done|].
  rewrite Hh, count_trades_snoc, count_trade_other in Hw', Hl', Hp' by done.
  rewrite Hh, length_app in Ht'. simpl in Ht'.
  split_and!; [done|done|lia|congruence..].
Qed.

Lemma unknown_side_is_sold_but_not_counted_witness :
  let t := TradeInput.mk "ann" "X" "hold" 1 in
  ∃ state dir' report report',
    App.paper_trade quotes "t" t data_dir
    = (Respond (state, float 150 1), dir')
    ∧ App.get_portfolio quotes "ann" data_dir = Respond report
    ∧ App.get_portfolio quotes "ann" dir' = Respond report'
    ∧ cash (Report.state report') = cash (Report.state report) + 1 * float 150 1
    ∧ Metrics.total_trades (Report.metrics report')
      = S (Metrics.total_trades (Report.metrics report))
    ∧ Metrics.total_pnl (Report.metrics report')
      = Metrics.total_pnl (Report.metrics report).
Proof.
  intros t.
  destruct (App.paper_trade quotes "t" t data_dir) as [[[state price]|] dir']
    eqn:Hcall; [|by vm_compute in Hcall].
  assert (price = float 150 1) as ->.
  { apply paper_trade_Respond_inv in Hcall as (_ & _ & Hmd & _).
    by injection Hmd as <-. }
  destruct (get_portfolio_Respond quotes "ann" data_dir portfolio_after_buys)
    as (m & Hget & _); [reflexivity|].
  destruct (get_portfolio_Respond quotes "ann" dir' state)
    as (m' & Hget' & _).
  { apply paper_trade_Respond_inv in Hcall as (_ & _ & _ & _ & ->).
    apply lookup_insert_eq. }
  eexists _, _, _, _. split_and!; [reflexivity|exact Hget|exact Hget'|..];
    by destruct (unknown_side_is_sold_but_not_counted quotes "t" t data_dir
                   state (float 150 1) dir' quotes _ _
                   ltac:(by_computation) ltac:(by_computation)
                   Hcall Hget Hget')
      as (? & ? & ? & ? & ? & ?).
Defined.

Lemma serve_orders_insert user_id orders : ∀ user dir,
  App.load_user user_id dir = Some user →
  Forall (λ order : (string → latest_close) * Trade.t,
            order.1 (Trade.symbol order.2) = Close (Trade.price order.2))
    orders →
  App.serve (order_request user_id <$> orders) dir
  = <[user_id := foldl apply_or_keep user orders.*2]> dir.
Proof.
  unfold App.serve, App.load_user.
  induction orders as [|[md trade] orders IH]; intros user dir Hload Hmd.
  { simpl. by rewrite insert_id. }
  apply Forall_cons in Hmd as [Hmd Hrest]. simpl in Hmd.
  rewrite !fmap_cons. cbn [foldl App.handle order_request fst snd].
  unfold apply_or_keep at 2, apply_trade.
  destruct (execute_trade user _ _ _ _ _) as [state|[message]] eqn:Hexec.
  - rewrite (paper_trade_Return _ _ _ _ user (Trade.price trade) state)
      by done.
    cbn [snd TradeInput.user_id]. unfold App.save_user.
    rewrite (IH state) by (by rewrite ?lookup_insert_eq).
    by rewrite insert_insert_eq.
  - rewrite (paper_trade_Raise _ _ _ _ user (Trade.price trade) message)
      by done.
    cbn [snd]. by apply IH.
Qed.

(** X14, the orders of a user: when [paper_trade] serves orders of one
    user, each at the price the market quotes, the user's file ends with
    the state the ledger reaches from the stored one by executing the
    orders in turn, skipping those it refuses; the other files are as
    before. *)
Theorem serve_orders_of_a_user user_id user orders dir :
  App.load_user user_id dir = Some user →
  Forall (λ order : (string → latest_close) * Trade.t,
            order.1 (Trade.symbol order.2) = Close (Trade.price order.2))
    orders →
  App.serve (order_request user_id <$> orders) dir
  = App.save_user user_id (foldl apply_or_keep user orders.*2) dir.
Proof. apply serve_orders_insert. Qed.

Lemma serve_orders_of_a_user_witness :
  App.serve
    (order_request "ann"
       <$> [(quotes, Trade.mk "X" "sell" (float 5 1) (float 150 1) "t");
            (quotes, Trade.mk "X" "sell" (float 4 1) (float 150 1) "t3")])
    data_dir
  = scenario_dir
  ∧ scenario_dir
    = App.save_user "ann"
        (foldl apply_or_keep portfolio_after_buys
           [Trade.mk "X" "sell" (float 5 1) (float 150 1) "t";
            Trade.mk "X" "sell" (float 4 1) (float 150 1) "t3"])
        data_dir.
Proof.
  assert (scenario_dir
          = App.save_user "ann"
              (foldl apply_or_keep portfolio_after_buys
                 [Trade.mk "X" "sell" (float 5 1) (float 150 1) "t";
                  Trade.mk "X" "sell" (float 4 1) (float 150 1) "t3"])
              data_dir) as Heq by by_computation.
  split; [|exact Heq]. rewrite Heq.
  apply (serve_orders_of_a_user "ann" portfolio_after_buys
           [(quotes, Trade.mk "X" "sell" (float 5 1) (float 150 1) "t");
            (quotes, Trade.mk "X" "sell" (float 4 1) (float 150 1) "t3")]
           data_dir).
  - reflexivity.
  - repeat apply Forall_cons_2; [reflexivity..|apply Forall_nil_2].
Defined.

(** ** A buy and the sales that follow *)

Lemma buy_fresh c symbol quantity price time :
  quantity * price ≤ c →
  execute_trade (mkPortfolioState c [] []) symbol "buy" quantity price time
  = Return
      (mkPortfolioState (c - quantity * price)
         [bought (Position.mk symbol 0 0) quantity price]
         [Trade.mk symbol "buy" quantity price time]).
Proof.
  intros Hle.
  by rewrite (execute_trade_buy_return _ _ _ _ _ _
                [Position.mk symbol 0 0] 0 (Position.mk symbol 0 0))
    by (by try apply Qcle_not_lt).
Qed.

Lemma sell_single c pos h side quantity price time :
  side ≠ "buy" → quantity ≤ Position.quantity pos →
  execute_trade (mkPortfolioState c [pos] h) (Position.symbol pos) side
    quantity price time
  = Return
      (mkPortfolioState (c + quantity * price) [sold pos quantity]
         (h ++ [Trade.mk (Position.symbol pos) side quantity price time])).
Proof.
  intros Hside Hle.
  assert (list_find (λ p, Position.symbol p = Position.symbol pos) [pos]
          = Some (0%nat, pos)) as Hfind.
  { simpl. by rewrite decide_True. }
  rewrite (execute_trade_sell_return _ _ _ _ _ _ [pos] 0 pos); [done..| |].
  - unfold held, position_of. cbn [positions]. rewrite Hfind.
    by apply Qcle_not_lt.
  - unfold ensure_position. cbn [positions]. by rewrite Hfind.
Qed.

Lemma apply_or_keep_Return state trade state' :
  execute_trade state (Trade.symbol trade) (Trade.side trade)
    (Trade.quantity trade) (Trade.price trade) (Trade.time trade)
  = Return state' →
  apply_or_keep state trade = state'.
Proof. unfold apply_or_keep, apply_trade. by intros ->. Qed.

Lemma count_buy_then_sell symbol q qs p1 p2 t1 t2 :
  let pnl := (p2 - p1) * App.min qs q in
  App.count_trades
    [Trade.mk symbol "buy" q p1 t1; Trade.mk symbol "sell" qs p2 t2]
  = App.mk_tally
      (if decide (0 < pnl) then 1 else 0)
      (if decide (0 < pnl) then 0 else if decide (pnl < 0) then 1 else 0)
      pnl (<[symbol:=[]]> (<[symbol:=[(p1, q)]]> ∅)).
Proof.
  intros pnl. unfold App.count_trades. cbn [foldl].
  unfold App.count_trade at 2. cbn [Trade.side Trade.symbol Trade.price
    Trade.quantity App.position_tracker App.winning_trades App.losing_trades
    App.total_pnl].
  rewrite decide_True by done. rewrite lookup_empty. cbn [default app].
  unfold App.count_trade. cbn [Trade.side Trade.symbol Trade.price
    Trade.quantity App.position_tracker App.winning_trades App.losing_trades
    App.total_pnl].
  rewrite decide_False by done. rewrite decide_True by done.
  rewrite lookup_insert_eq. cbn [fst snd]. fold pnl.
  by rewrite Qcplus_0_l.
Qed.

(** X15, a round trip: for a user that [init_user] has set up, a buy
    that the cash covers and then a sale of the same quantity of the same
    symbol are both filled; [get_portfolio] then reports two trades, a
    total profit of the difference of the two prices times the quantity,
    a cash that is the first cash, minus the cost of the buy, plus the
    proceeds of the sale, nothing held, and a total value equal to the
    cash. *)
Theorem round_trip_profit req symbol quantity p1 p2 md1 md2 md t1 t2 dir :
  md1 symbol = Close p1 → md2 symbol = Close p2 →
  quantity * p1 ≤ InitRequest.cash req →
  let user_id := InitRequest.user_id req in
  let dir' :=
    App.serve
      [App.Init req;
       App.PaperTrade md1 t1 (TradeInput.mk user_id symbol "buy" quantity);
       App.PaperTrade md2 t2 (TradeInput.mk user_id symbol "sell" quantity)]
      dir in
  ∃ report,
    App.get_portfolio md user_id dir' = Respond report
    ∧ cash (Report.state report)
      = InitRequest.cash req - quantity * p1 + quantity * p2
    ∧ held (Report.state report) symbol = 0
    ∧ Metrics.total_trades (Report.metrics report) = 2%nat
    ∧ Metrics.total_pnl (Report.metrics report) = (p2 - p1) * quantity
    ∧ Metrics.total_value (Report.metrics report)
      = cash (Report.state report).
Proof.
  intros Hmd1 Hmd2 Hle user_id dir'.
  set (fresh := mkPortfolioState (InitRequest.cash req) [] []).
  set (pos := bought (Position.mk symbol 0 0) quantity p1).
  set (tr1 := Trade.mk symbol "buy" quantity p1 t1).
  set (tr2 := Trade.mk symbol "sell" quantity p2 t2).
  set (state1 :=
         mkPortfolioState (InitRequest.cash req - quantity * p1) [pos] [tr1]).
  set (state2 :=
         mkPortfolioState (InitRequest.cash req - quantity * p1 + quantity * p2)
           [sold pos quantity] [tr1; tr2]).
  assert (Position.quantity pos = quantity) as Hq
    by (subst pos; simpl; apply Qcplus_0_l).
  assert (apply_or_keep fresh tr1 = state1) as H1
    by (by apply apply_or_keep_Return, buy_fresh).
  assert (apply_or_keep state1 tr2 = state2) as H2.
  { apply apply_or_keep_Return.
    apply (sell_single _ pos [tr1] "sell" quantity p2 t2); [done|].
    by rewrite Hq. }
  assert (dir' !! user_id = Some state2) as Hload.
  { subst dir'.
    change (App.serve (order_request user_id <$> [(md1, tr1); (md2, tr2)])
              (<[user_id:=fresh]> dir) !! user_id = Some state2).
    rewrite (serve_orders_insert user_id _ fresh).
    - rewrite lookup_insert_eq. simpl. by rewrite H1, H2.
    - apply lookup_insert_eq.
    - by repeat apply Forall_cons_2. }
  destruct (get_portfolio_Respond md _ _ _ Hload)
    as (m & Hget & Hvalue & Htotal & _ & Htrades & _ & _ & Hpnl & _).
  eexists. split; [exact Hget|]. cbn [Report.state Report.metrics].
  assert (sold pos quantity = Position.mk symbol 0 0) as Hsold.
  { unfold sold. rewrite Hq. subst pos. simpl.
    assert (quantity - quantity = 0) as -> by ring.
    by rewrite decide_True. }
  split_and!.
  - done.
  - unfold held, position_of. simpl. rewrite Hsold. simpl.
    by rewrite decide_True.
  - done.
  - rewrite Hpnl. subst state2. cbn [history]. subst tr1 tr2.
    rewrite count_buy_then_sell. cbn [App.total_pnl].
    unfold App.min. by rewrite decide_False by apply Qcle_not_lt, Qcle_refl.
  - rewrite Htotal, Hvalue. subst state2. cbn [positions cash].
    rewrite Hsold. unfold App.position_row, App.fallback_row. simpl.
    destruct (md symbol); try rewrite decide_True by done; simpl; ring.
Qed.

Lemma round_trip_profit_witness :
  ∃ report,
    App.get_portfolio quotes "bob"
      (App.serve
         [App.Init (InitRequest.mk "bob" (float 500 1));
          App.PaperTrade (λ _, Close (float 100 1)) "t1"
            (TradeInput.mk "bob" "X" "buy" 2);
          App.PaperTrade quotes "t2" (TradeInput.mk "bob" "X" "sell" 2)]
         data_dir)
    = Respond report
    ∧ cash (Report.state report) = float 600 1
    ∧ Metrics.total_pnl (Report.metrics report) = float 100 1.
Proof.
  destruct (round_trip_profit (InitRequest.mk "bob" (float 500 1)) "X" 2
              (float 100 1) (float 150 1) (λ _, Close (float 100 1)) quotes
              quotes "t1" "t2" data_dir)
    as (report & Hget & Hcash & _ & _ & Hpnl & _).
  - reflexivity.
  - reflexivity.
  - by_computation.
  - exists report. split; [exact Hget|]. split.
    + rewrite Hcash. by_computation.
    + rewrite Hpnl. by_computation.
Defined.

(** X16, a sale in two parts: for a user that [init_user] has set up,
    a buy of a lot that the cash covers, a sale of a part of the lot and
    a sale of no more than what is then left are all filled, and the cash
    has the proceeds of both sales.  The statistics of [get_portfolio]
    pair the buy with the first sale only: the total profit is the
    difference of the first sale's price and the buy's price times the
    first part, and the second sale is neither won nor lost. *)
Theorem split_sale_is_counted_once
    req symbol lot q1 q2 p1 p2 p3 md1 md2 md3 md t1 t2 t3 dir :
  md1 symbol = Close p1 → md2 symbol = Close p2 → md3 symbol = Close p3 →
  lot * p1 ≤ InitRequest.cash req →
  q1 ≤ lot → q2 ≤ lot - q1 →
  let user_id := InitRequest.user_id req in
  let dir' :=
    App.serve
      [App.Init req;
       App.PaperTrade md1 t1 (TradeInput.mk user_id symbol "buy" lot);
       App.PaperTrade md2 t2 (TradeInput.mk user_id symbol "sell" q1);
       App.PaperTrade md3 t3 (TradeInput.mk user_id symbol "sell" q2)]
      dir in
  ∃ report,
    App.get_portfolio md user_id dir' = Respond report
    ∧ cash (Report.state report)
      = InitRequest.cash req - lot * p1 + q1 * p2 + q2 * p3
    ∧ held (Report.state report) symbol = lot - q1 - q2
    ∧ Metrics.total_trades (Report.metrics report) = 3%nat
    ∧ Metrics.total_pnl (Report.metrics report) = (p2 - p1) * q1
    ∧ (Metrics.winning_trades (Report.metrics report)
       + Metrics.losing_trades (Report.metrics report) ≤ 1)%nat.
Proof.
  intros Hmd1 Hmd2 Hmd3 Hle Hq1 Hq2 user_id dir'.
  set (fresh := mkPortfolioState (InitRequest.cash req) [] []).
  set (pos := bought (Position.mk symbol 0 0) lot p1).
  set (tr1 := Trade.mk symbol "buy" lot p1 t1).
  set (tr2 := Trade.mk symbol "sell" q1 p2 t2).
  set (tr3 := Trade.mk symbol "sell" q2 p3 t3).
  set (c1 := InitRequest.cash req - lot * p1).
  set (state1 := mkPortfolioState c1 [pos] [tr1]).
  set (state2 := mkPortfolioState (c1 + q1 * p2) [sold pos q1] [tr1; tr2]).
  set (state3 :=
         mkPortfolioState (c1 + q1 * p2 + q2 * p3) [sold (sold pos q1) q2]
           [tr1; tr2; tr3]).
  assert (Position.quantity pos = lot) as Hq
    by (subst pos; simpl; apply Qcplus_0_l).
  assert (Position.quantity (sold pos q1) = lot - q1) as Hq'
    by (unfold sold; cbn [Position.quantity]; by rewrite Hq).
  assert (apply_or_keep fresh tr1 = state1) as H1
    by (by apply apply_or_keep_Return, buy_fresh).
  assert (apply_or_keep state1 tr2 = state2) as H2.
  { apply apply_or_keep_Return.
    apply (sell_single _ pos [tr1] "sell" q1 p2 t2); [done|].
    by rewrite Hq. }
  assert (apply_or_keep state2 tr3 = state3) as H3.
  { apply apply_or_keep_Return.
    apply (sell_single _ (sold pos q1) [tr1; tr2] "sell" q2 p3 t3); [done|].
    by rewrite Hq'. }
  assert (dir' !! user_id = Some state3) as Hload.
  { subst dir'.
    change (App.serve
              (order_request user_id
                 <$> [(md1, tr1); (md2, tr2); (md3, tr3)])
              (<[user_id:=fresh]> dir) !! user_id = Some state3).
    rewrite (serve_orders_insert user_id _ fresh).
    - rewrite lookup_insert_eq. simpl. by rewrite H1, H2, H3.
    - apply lookup_insert_eq.
    - by repeat apply Forall_cons_2. }
  destruct (get_portfolio_Respond md _ _ _ Hload)
    as (m & Hget & _ & _ & _ & Htrades & Hw & Hl & Hpnl & _).
  eexists. split; [exact Hget|]. cbn [Report.state Report.metrics].
  assert (App.count_trades [tr1; tr2; tr3]
          = App.count_trades [tr1; tr2]) as Hcount.
  { change [tr1; tr2; tr3] with ([tr1; tr2] ++ [tr3]).
    rewrite count_trades_snoc. subst tr1 tr2.
    rewrite count_buy_then_sell. unfold App.count_trade. simpl.
    by rewrite lookup_insert_eq. }
  assert (App.min q1 lot = q1) as Hmin.
  { unfold App.min. rewrite decide_False; [done|]. by apply Qcle_not_lt. }
  subst state3. cbn [history cash positions] in *.
  rewrite Hcount in Hw, Hl, Hpnl. subst tr1 tr2.
  rewrite count_buy_then_sell in Hw, Hl, Hpnl.
  cbn [App.total_pnl App.winning_trades App.losing_trades] in Hw, Hl, Hpnl.
  rewrite Hmin in Hw, Hl, Hpnl.
  split_and!.
  - done.
  - unfold held, position_of. simpl. rewrite decide_True by done. simpl.
    by rewrite Qcplus_0_l.
  - done.
  - done.
  - rewrite Hw, Hl. repeat case_decide; lia.
Qed.

Lemma split_sale_is_counted_once_witness :
  ∃ report,
    App.get_portfolio quotes "bob"
      (App.serve
         [App.Init (InitRequest.mk "bob" (float 500 1));
          App.PaperTrade (λ _, Close (float 100 1)) "t1"
            (TradeInput.mk "bob" "X" "buy" 2);
          App.PaperTrade quotes "t2" (TradeInput.mk "bob" "X" "sell" 1);
          App.PaperTrade quotes "t3" (TradeInput.mk "bob" "X" "sell" 1)]
         data_dir)
    = Respond report
    ∧ cash (Report.state report) = float 600 1
    ∧ Metrics.total_pnl (Report.metrics report) = float 50 1.
Proof.
  destruct (split_sale_is_counted_once (InitRequest.mk "bob" (float 500 1))
              "X" 2 1 1 (float 100 1) (float 150 1) (float 150 1)
              (λ _, Close (float 100 1)) quotes quotes quotes
              "t1" "t2" "t3" data_dir)
    as (report & Hget & Hcash & _ & _ & Hpnl & _).
  - reflexivity.
  - reflexivity.
  - reflexivity.
  - by_computation.
  - by_computation.
  - by_computation.
  - exists report. split; [exact Hget|]. split.
    + rewrite Hcash. by_computation.
    + rewrite Hpnl. by_computation.
Defined.

(** ** The list of positions *)

(** X17, [ensure_position] works in place: on a list object of position
    objects it returns an element of the list after the call, whose
    symbol is the one asked for.  When the list has a position of the
    symbol the store is not changed; when it has none, one position
    object of quantity and average price zero is allocated and the list
    object itself is extended with it, so the caller's list has grown.
    A second call returns the same object and changes nothing. *)
Theorem ensure_position_appends_in_place
    (σ : Obj.store) ps pl (P : list Position.t) symbol :
  σ !! ps = Some (Obj.ListObj pl) →
  Forall2 (λ r p, σ !! r = Some (Obj.PositionObj p)) pl P →
  ∃ r σ' pl' p,
    Obj.ensure_position ps symbol σ = Some (Return r, σ')
    ∧ σ' !! ps = Some (Obj.ListObj pl') ∧ r ∈ pl'
    ∧ σ' !! r = Some (Obj.PositionObj p) ∧ Position.symbol p = symbol
    ∧ (is_Some (list_find (λ p, Position.symbol p = symbol) P)
       ∧ σ' = σ ∧ pl' = pl
       ∨ list_find (λ p, Position.symbol p = symbol) P = None
         ∧ r = length σ ∧ p = Position.mk symbol 0 0 ∧ pl' = pl ++ [r]
         ∧ σ' = <[ps:=Obj.ListObj (pl ++ [r])]> (σ ++ [Obj.PositionObj p]))
    ∧ Obj.ensure_position ps symbol σ' = Some (Return r, σ').
Proof.
  intros Hps Hpl.
  assert (∀ σ0 pl0 P0 i r p,
            σ0 !! ps = Some (Obj.ListObj pl0) →
            Forall2 (λ r p, σ0 !! r = Some (Obj.PositionObj p)) pl0 P0 →
            list_find (λ p, Position.symbol p = symbol) P0 = Some (i, p) →
            pl0 !! i = Some r →
            Obj.ensure_position ps symbol σ0 = Some (Return r, σ0)) as Hfound.
  { intros σ0 pl0 P0 i r p Hps0 Hpl0 Hfind Hr. unfold Obj.ensure_position.
    rewrite run_bind, (get_list_spec _ _ _ Hps0).
    rewrite run_bind, (find_position_spec _ _ _ _ Hpl0), Hfind, Hr. done. }
  destruct (list_find (λ p, Position.symbol p = symbol) P) as [[i p]|]
    eqn:Hfind.
  - pose proof Hfind as (Hi & Hsym & _)%list_find_Some.
    destruct (Forall2_lookup_r _ _ _ _ _ Hpl Hi) as (r & Hr & Hσr).
    exists r, σ, pl, p.
    rewrite (Hfound σ pl P i r p) by done.
    split_and!; [done|done|by eapply list_elem_of_lookup_2|done|done| |done].
    left. by split_and!.
  - set (p := Position.mk symbol 0 0).
    set (r := length σ).
    set (σ' := <[ps:=Obj.ListObj (pl ++ [r])]> (σ ++ [Obj.PositionObj p])).
    pose proof (lookup_lt_Some _ _ _ Hps) as Hlt.
    assert (σ' !! ps = Some (Obj.ListObj (pl ++ [r]))) as Hps'.
    { subst σ'. apply list_lookup_insert_eq. rewrite length_app. simpl. lia. }
    assert (σ' !! r = Some (Obj.PositionObj p)) as Hr'.
    { subst σ' r. rewrite list_lookup_insert_ne by lia.
      by apply list_lookup_middle. }
    assert (Forall2 (λ r p, σ' !! r = Some (Obj.PositionObj p)) (pl ++ [r])
              (P ++ [p])) as Hpl'.
    { apply Forall2_app; [|by apply Forall2_cons].
      eapply Forall2_impl; [exact Hpl|]. intros r0 p0 Hr0. subst σ'.
      rewrite list_lookup_insert_ne by congruence.
      by apply lookup_app_l_Some. }
    exists r, σ', (pl ++ [r]), p.
    split_and!; [|done|set_solver|done|done|by right|].
    + unfold Obj.ensure_position.
      rewrite run_bind, (get_list_spec _ _ _ Hps).
      rewrite run_bind, (find_position_spec _ _ _ _ Hpl), Hfind.
      rewrite run_bind. unfold Obj.alloc.
      rewrite run_bind, (append_spec _ _ pl) by (by apply lookup_app_l_Some).
      done.
    + apply (Hfound σ' (pl ++ [r]) (P ++ [p]) (length P) r p); [done..| |].
      * rewrite list_find_app_r by done. simpl.
        by rewrite decide_True by done.
      * rewrite <-(Forall2_length _ _ _ Hpl). by apply list_lookup_middle.
Qed.

Lemma ensure_position_appends_in_place_witness :
  ∃ σ',
    Obj.ensure_position 1 "Y" store_X = Some (Return 4%nat, σ')
    ∧ σ' !! 1%nat = Some (Obj.ListObj [0; 4]%nat)
    ∧ Obj.ensure_position 1 "Y" σ' = Some (Return 4%nat, σ').
Proof.
  destruct (ensure_position_appends_in_place store_X 1 [0%nat]
              [Position.mk "X" (float 5 1) (float 10 1)] "Y")
    as (r & σ' & pl' & p & Hcall & Hlist & _ & _ & _ & Hcase & Hagain).
  - reflexivity.
  - by apply Forall2_cons.
  - destruct Hcase as [([? Hfind] & _)|(_ & -> & _ & -> & _)].
    { exfalso. revert Hfind. by_computation. }
    by exists σ'.
Defined.

Lemma execute_trade_symbols_eq state state' symbol side quantity price time :
  execute_trade state symbol side quantity price time = Return state' →
  Position.symbol <$> positions state'
  = (Position.symbol <$> positions state)
    ++ match position_of state symbol with
       | Some _ => []
       | None => [symbol]
       end.
Proof.
  intros Hcall.
  apply execute_trade_Return_inv in Hcall
    as (P' & i & pos & pos' & Hens & -> & _ & Hcase).
  pose proof (ensure_position_lookup _ _ _ _ _ Hens) as [Hi Hsym].
  assert (Position.symbol pos' = Position.symbol pos) as Hsym'
    by (by destruct Hcase as [(_&_&_&->)|(_&_&_&->)]).
  rewrite list_fmap_insert, Hsym'.
  rewrite list_insert_id by (by rewrite list_lookup_fmap, Hi).
  unfold position_of.
  destruct (ensure_position_positions _ _ _ _ _ Hens)
    as [[-> Hi']|(-> & _ & -> & ->)].
  - destruct (list_find _ _) as [[j q]|] eqn:Hfind;
      [by rewrite app_nil_r|].
    exfalso. eapply list_find_None in Hfind.
    by eapply Forall_lookup_1 in Hfind.
  - by rewrite fmap_app.
Qed.

(** X19, positions are kept: a call that returns leaves the symbols of
    the positions, in their order, as they were, with the traded symbol
    added at the end when the state had no position of it.  No position
    is removed, also not by a sale of all that is held, and no symbol is
    added twice: symbols that were distinct stay distinct. *)
Theorem execute_trade_keeps_positions
    state state' symbol side quantity price time :
  execute_trade state symbol side quantity price time = Return state' →
  Position.symbol <$> positions state'
  = (Position.symbol <$> positions state)
    ++ match position_of state symbol with
       | Some _ => []
       | None => [symbol]
       end
  ∧ (NoDup (Position.symbol <$> positions state) →
     NoDup (Position.symbol <$> positions state')).
Proof.
  intros Hcall. pose proof (execute_trade_symbols_eq _ _ _ _ _ _ _ Hcall) as Heq.
  split; [done|]. rewrite Heq. intros Hnd.
  unfold position_of.
  destruct (list_find _ _) as [[j q]|] eqn:Hfind; simpl;
    [by rewrite app_nil_r|].
  apply NoDup_app. split_and!; [done| |apply NoDup_singleton].
  intros s (pos & -> & Hpos)%list_elem_of_fmap Hsym%list_elem_of_singleton.
  eapply list_find_None in Hfind.
  by eapply Forall_forall in Hfind.
Qed.

Lemma execute_trade_keeps_positions_witness :
  ∃ state',
    execute_trade portfolio_X "X" "sell" (float 5 1) (float 12 1) "t"
    = Return state'
    ∧ Position.symbol <$> positions state' = ["X"]
    ∧ held state' "X" = 0.
Proof.
  eexists. split; [reflexivity|]. split; [|by_computation].
  by destruct (execute_trade_keeps_positions portfolio_X _ "X" "sell"
                 (float 5 1) (float 12 1) "t" eq_refl) as [-> _].
Defined.

(** X20, one position for a symbol: in a data directory whose files have
    no two positions of the same symbol, as in the empty one, this stays
    so whatever requests are served; [get_portfolio] then reports at most
    one row for a symbol. *)
Theorem serve_keeps_symbols_distinct requests dir :
  map_Forall (λ _ state, NoDup (Position.symbol <$> positions state)) dir →
  map_Forall (λ _ state, NoDup (Position.symbol <$> positions state))
    (App.serve requests dir)
  ∧ ∀ md user_id report,
      App.get_portfolio md user_id (App.serve requests dir) = Respond report →
      NoDup (Row.symbol <$> Report.positions report).
Proof.
  intros Hdir.
  assert (map_Forall (λ _ state, NoDup (Position.symbol <$> positions state))
            (App.serve requests dir)) as Hserve.
  { unfold App.serve. revert dir Hdir.
    induction requests as [|r requests IH]; intros dir Hdir; [done|].
    simpl. apply IH. intros user_id state' Hlookup.
    apply handle_lookup in Hlookup
      as [Hold|[(req & -> & ->)|(md & utcnow & t & user & price & -> & Hold
                                  & Hmd & Hexec)]].
    - by apply (Hdir user_id).
    - apply NoDup_nil_2.
    - apply (execute_trade_symbols_eq) in Hexec as Heq. rewrite Heq.
      pose proof (Hdir _ _ Hold) as Hnd. simpl in Hnd.
      unfold position_of.
      destruct (list_find _ _) as [[j q]|] eqn:Hfind; simpl;
        [by rewrite app_nil_r|].
      apply NoDup_app. split_and!; [done| |apply NoDup_singleton].
      intros s (pos & -> & Hpos)%list_elem_of_fmap Hsym%list_elem_of_singleton.
      eapply list_find_None in Hfind.
      by eapply Forall_forall in Hfind. }
  split; [done|].
  intros md user_id report Hget.
  pose proof (get_portfolio_Respond_inv _ _ _ _ Hget) as Hload.
  destruct (get_portfolio_Respond md _ _ _ Hload) as (m & Hget' & _).
  rewrite Hget in Hget'. injection Hget' as ->. simpl.
  rewrite <-list_fmap_compose.
  rewrite (list_fmap_ext _ Position.symbol (positions (Report.state report))).
  - by apply (Hserve user_id).
  - intros k pos _. simpl. by destruct (position_row_accounts md pos) as [-> _].
Qed.

Lemma serve_keeps_symbols_distinct_witness :
  map_Forall (λ _ state, NoDup (Position.symbol <$> positions state))
    (App.serve
       [App.PaperTrade quotes "t1" (TradeInput.mk "ann" "X" "sell" 2);
        App.PaperTrade quotes "t2" (TradeInput.mk "ann" "X" "buy" 1)]
       data_dir).
Proof.
  apply serve_keeps_symbols_distinct.
  apply map_Forall_singleton. simpl. apply NoDup_singleton.
Defined.

(** ** The local storage *)

Section dict.
Context {A : Type}.
Implicit Types (d : list (string * A)) (k : string) (v : A).

Lemma dict_get_set_eq k v d : dict_get k (dict_set k v d) = Some v.
Proof.
  unfold dict_get, dict_set.
  destruct (list_find _ d) as [[i kv]|] eqn:Hfind.
  - apply list_find_Some in Hfind as (Hi & _ & Hleast).
    assert (list_find (λ kv : string * A, kv.1 = k) (<[i:=(k, v)]> d)
            = Some (i, (k, v))) as ->; [|done].
    apply list_find_insert_Some.
    right; left. split_and!; eauto using lookup_lt_Some.
  - rewrite list_find_app_r by done. simpl. by rewrite decide_True.
Qed.

Lemma dict_get_set_ne k k' v d :
  k' ≠ k → dict_get k' (dict_set k v d) = dict_get k' d.
Proof.
  intros Hne. unfold dict_get, dict_set.
  destruct (list_find (λ kv, kv.1 = k) d) as [[i kv]|] eqn:Hfind.
  - apply list_find_Some in Hfind as (Hi & Hk & _).
    rewrite (list_find_insert_other _ _ _ kv); [done..| |];
      simpl; congruence.
  - by rewrite list_find_snoc_other.
Qed.

Lemma dict_set_get k v d : dict_get k d = Some v → dict_set k v d = d.
Proof.
  unfold dict_get, dict_set.
  destruct (list_find _ d) as [[i [k0 v0]]|] eqn:Hfind; [|done].
  simpl. intros [= ->].
  apply list_find_Some in Hfind as (Hi & Hk & _). simpl in Hk. subst k0.
  by apply list_insert_id.
Qed.

Lemma dict_set_set k v v' d :
  dict_set k v (dict_set k v' d) = dict_set k v d.
Proof.
  unfold dict_set at 2 3.
  destruct (list_find (λ kv, kv.1 = k) d) as [[i kv]|] eqn:Hfind.
  - pose proof Hfind as (Hi & _ & Hleast)%list_find_Some.
    unfold dict_set.
    assert (list_find (λ kv : string * A, kv.1 = k) (<[i:=(k, v')]> d)
            = Some (i, (k, v'))) as ->;
      [|by rewrite list_insert_insert_eq].
    apply list_find_insert_Some.
    right; left. split_and!; eauto using lookup_lt_Some.
  - unfold dict_set. rewrite list_find_app_r by done. simpl.
    rewrite decide_True by done. simpl.
    rewrite insert_app_r_alt, Nat.sub_diag by done. done.
Qed.

Lemma dict_get_middle k v d1 d2 :
  k ∉ d1.*1 → dict_get k (d1 ++ (k, v) :: d2) = Some v.
Proof.
  intros Hk. unfold dict_get.
  rewrite list_find_app_r.
  - simpl. by rewrite decide_True.
  - apply list_find_None, Forall_forall. intros [k0 v0] Hin Hk0.
    simpl in Hk0. subst k0. apply Hk.
    by apply (list_elem_of_fmap_2 fst) in Hin.
Qed.

Lemma dict_set_middle k v v' d1 d2 :
  k ∉ d1.*1 →
  dict_set k v' (d1 ++ (k, v) :: d2) = d1 ++ (k, v') :: d2.
Proof.
  intros Hk. unfold dict_set.
  rewrite list_find_app_r.
  - simpl. rewrite decide_True by done. simpl.
    by rewrite insert_app_r_alt, Nat.sub_diag.
  - apply list_find_None, Forall_forall. intros [k0 v0] Hin Hk0.
    simpl in Hk0. subst k0. apply Hk.
    by apply (list_elem_of_fmap_2 fst) in Hin.
Qed.

Lemma dict_set_new k v d : dict_get k d = None → dict_set k v d = d ++ [(k, v)].
Proof.
  unfold dict_get, dict_set. by destruct (list_find _ d) as [[i kv]|].
Qed.

End dict.

Lemma remove_snoc symbol symbols :
  symbol ∉ symbols →
  LocalStorageService.remove symbol (symbols ++ [symbol]) = symbols.
Proof.
  induction symbols as [|s symbols IH]; intros Hnot; simpl.
  - by rewrite decide_True.
  - apply not_elem_of_cons in Hnot as [Hne Hnot].
    rewrite decide_False by done. by rewrite IH.
Qed.

(** X21, a trade on the local storage: [execute_trade] raises
    [ValueError("Portfolio not found")] and writes nothing when the
    portfolio is not stored.  When it is stored the trade is never
    refused, whatever its side, quantity and price: it is recorded as
    filled under its identifier, the balance of the portfolio goes down
    by [quantity * price] for side buy and up by it for every other
    side, nothing else of the portfolio changes (its positions stay as
    they are), and the other portfolios are as before. *)
Theorem storage_trade_is_never_refused
    uuid4 utcnow portfolio_id symbol side quantity price trade_type db :
  let call :=
    LocalStorageService.execute_trade uuid4 utcnow portfolio_id symbol side
      quantity price trade_type db in
  (LocalStorageService.get_portfolio portfolio_id db = None →
   call = (Raise (ValueError "Portfolio not found"), db))
  ∧ ∀ portfolio,
      LocalStorageService.get_portfolio portfolio_id db = Some portfolio →
      let trade :=
        StoredTrade.mk uuid4 portfolio_id symbol side quantity price
          trade_type "filled" utcnow in
      let balance :=
        if decide (side = "buy")
        then Portfolio.current_balance portfolio - quantity * price
        else Portfolio.current_balance portfolio + quantity * price in
      call.1 = Return trade
      ∧ dict_get uuid4 (LocalStorageService.trades_file call.2) = Some trade
      ∧ LocalStorageService.get_portfolio portfolio_id call.2
        = Some (Portfolio.set_current_balance balance portfolio)
      ∧ ∀ other, other ≠ portfolio_id →
          LocalStorageService.get_portfolio other call.2
          = LocalStorageService.get_portfolio other db.
Proof.
  intros call. subst call.
  unfold LocalStorageService.execute_trade, LocalStorageService.get_portfolio.
  split.
  - by intros ->.
  - intros portfolio ->. simpl. split_and!; [done|..].
    + apply dict_get_set_eq.
    + apply dict_get_set_eq.
    + intros other Hne. by apply dict_get_set_ne.
Qed.

Lemma storage_trade_is_never_refused_witness :
  let call :=
    LocalStorageService.execute_trade "id" "t1" "p1" "X" "buy" (float 3 1)
      (float 150 1) "market" storage_p1 in
  LocalStorageService.get_portfolio "p1" call.2
  = Some (Portfolio.set_current_balance (float (-350) 1) portfolio_p1).
Proof.
  intros call.
  destruct (storage_trade_is_never_refused "id" "t1" "p1" "X" "buy"
              (float 3 1) (float 150 1) "market" storage_p1)
    as [_ Hstored].
  destruct (Hstored portfolio_p1 eq_refl) as (_ & _ & Hget & _).
  subst call. rewrite Hget. by_computation.
Defined.

(** X22, the storage and the ledger: let a stored portfolio have the
    cash of a ledger state as balance.  Where the ledger fills an order,
    the storage fills it too and the new balance is the new cash of the
    ledger.  Where the ledger refuses the order, the storage fills it all
    the same: a buy that the cash does not cover leaves a negative
    balance, and a sale of more than is held is paid in full. *)
Theorem storage_balance_follows_ledger
    state symbol side quantity price time uuid4 utcnow portfolio_id
    trade_type db portfolio :
  LocalStorageService.get_portfolio portfolio_id db = Some portfolio →
  Portfolio.current_balance portfolio = cash state →
  ∃ trade db' portfolio',
    LocalStorageService.execute_trade uuid4 utcnow portfolio_id symbol side
      quantity price trade_type db
    = (Return trade, db')
    ∧ LocalStorageService.get_portfolio portfolio_id db' = Some portfolio'
    ∧ (∀ state',
         execute_trade state symbol side quantity price time = Return state' →
         Portfolio.current_balance portfolio' = cash state')
    ∧ (execute_trade state symbol side quantity price time
       = Raise (ValueError "Insufficient cash") →
       Portfolio.current_balance portfolio' < 0)
    ∧ (execute_trade state symbol side quantity price time
       = Raise (ValueError "Insufficient shares") →
       Portfolio.current_balance portfolio' = cash state + quantity * price).
Proof.
  intros Hget Hbalance.
  unfold LocalStorageService.execute_trade, LocalStorageService.get_portfolio
    in *.
  rewrite Hget. eexists _, _, _. split; [reflexivity|]. simpl.
  split; [apply dict_get_set_eq|]. simpl. rewrite Hbalance.
  split_and!.
  - intros state' Hcall.
    apply execute_trade_Return_inv in Hcall
      as (_ & _ & _ & _ & _ & _ & _ & [(Hs & _ & -> & _)|(Hs & _ & -> & _)]).
    + by rewrite decide_True.
    + by rewrite decide_False.
  - intros Hcall.
    apply execute_trade_Raise_inv in Hcall
      as [(Hs & Hlt & _)|(_ & _ & [=])].
    rewrite decide_True by done.
    apply Qclt_minus_iff in Hlt. apply Qclt_minus_iff.
    rewrite Qcplus_0_l.
    assert (- (cash state - quantity * price)
            = quantity * price + - cash state) as -> by ring.
    done.
  - intros Hcall.
    apply execute_trade_Raise_inv in Hcall
      as [(_ & _ & [=])|(Hs & _ & _)].
    by rewrite decide_False.
Qed.

Lemma storage_balance_follows_ledger_witness :
  let state := mkPortfolioState (float 100 1) [] [] in
  execute_trade state "X" "buy" (float 3 1) (float 150 1) "t1"
  = Raise (ValueError "Insufficient cash")
  ∧ ∃ trade db' portfolio',
      LocalStorageService.execute_trade "id" "t1" "p1" "X" "buy" (float 3 1)
        (float 150 1) "market" storage_p1
      = (Return trade, db')
      ∧ LocalStorageService.get_portfolio "p1" db' = Some portfolio'
      ∧ Portfolio.current_balance portfolio' < 0.
Proof.
  intros state.
  assert (execute_trade state "X" "buy" (float 3 1) (float 150 1) "t1"
          = Raise (ValueError "Insufficient cash")) as Hraise
    by by_computation.
  split; [exact Hraise|].
  destruct (storage_balance_follows_ledger state "X" "buy" (float 3 1)
              (float 150 1) "t1" "id" "t1" "p1" "market" storage_p1
              portfolio_p1)
    as (trade & db' & portfolio' & Hcall & Hget & _ & Hneg & _).
  - reflexivity.
  - reflexivity.
  - exists trade, db', portfolio'. split_and!; [done..|]. by apply Hneg.
Defined.

(** X23, a deleted portfolio: [delete_portfolio] of a stored portfolio
    returns [True] and marks it inactive.  [get_user_portfolios] then
    lists what it listed before, in the same order, without that
    portfolio; but [get_portfolio] still returns it, and [execute_trade]
    still fills trades on it. *)
Theorem deleted_portfolio_still_trades portfolio_id portfolio d1 d2 trades :
  portfolio_id ∉ d1.*1 →
  let db :=
    LocalStorageService.mk_storage (d1 ++ (portfolio_id, portfolio) :: d2)
      trades in
  let db' := (LocalStorageService.delete_portfolio portfolio_id db).2 in
  (LocalStorageService.delete_portfolio portfolio_id db).1 = true
  ∧ LocalStorageService.get_portfolio portfolio_id db'
    = Some (Portfolio.set_is_active false portfolio)
  ∧ (∀ user_id,
       LocalStorageService.get_user_portfolios user_id db'
       = LocalStorageService.get_user_portfolios user_id
           (LocalStorageService.mk_storage (d1 ++ d2) trades))
  ∧ ∀ uuid4 utcnow symbol side quantity price trade_type,
      ∃ trade,
        (LocalStorageService.execute_trade uuid4 utcnow portfolio_id symbol
           side quantity price trade_type db').1
        = Return trade.
Proof.
  intros Hfresh db db'.
  assert (LocalStorageService.delete_portfolio portfolio_id db
          = (true,
             LocalStorageService.mk_storage
               (d1 ++ (portfolio_id, Portfolio.set_is_active false portfolio)
                   :: d2) trades)) as Hdelete.
  { unfold LocalStorageService.delete_portfolio. subst db. simpl.
    rewrite dict_get_middle by done. by rewrite dict_set_middle. }
  subst db'. rewrite Hdelete. simpl.
  assert (LocalStorageService.get_portfolio portfolio_id
            (LocalStorageService.mk_storage
               (d1 ++ (portfolio_id, Portfolio.set_is_active false portfolio)
                   :: d2) trades)
          = Some (Portfolio.set_is_active false portfolio)) as Hget
    by (by apply dict_get_middle).
  split_and!; [done|done| |].
  - intros user_id. unfold LocalStorageService.get_user_portfolios.
    unfold dict_values. simpl. rewrite !fmap_app, fmap_cons, !filter_app.
    rewrite filter_cons. simpl.
    rewrite decide_False by (by intros [_ ?]). done.
  - intros. unfold LocalStorageService.execute_trade.
    unfold LocalStorageService.get_portfolio in Hget. rewrite Hget.
    by eexists.
Qed.

Lemma deleted_portfolio_still_trades_witness :
  let db' := (LocalStorageService.delete_portfolio "p1" storage_p1).2 in
  LocalStorageService.get_user_portfolios "ann" storage_p1 = [portfolio_p1]
  ∧ LocalStorageService.get_user_portfolios "ann" db' = []
  ∧ ∃ trade,
      (LocalStorageService.execute_trade "id" "t1" "p1" "X" "sell" 1 1
         "market" db').1
      = Return trade.
Proof.
  intros db'.
  destruct (deleted_portfolio_still_trades "p1" portfolio_p1 [] [] [])
    as (_ & _ & Hlist & Htrade); [by apply not_elem_of_nil|].
  split; [reflexivity|]. split.
  - apply (Hlist "ann").
  - apply (Htrade "id" "t1" "X" "sell" 1 1 "market").
Defined.

(** X24, tracked symbols: [add_tracked_symbol] on a stored portfolio
    returns the portfolio as it then is stored, with the symbol tracked
    and the symbols tracked before kept in front, in their order.  To add
    the symbol again changes nothing.  When the symbol was not tracked
    before, [remove_tracked_symbol] after the addition restores the files
    as they were. *)
Theorem tracked_symbol_add_remove portfolio_id symbol db portfolio :
  LocalStorageService.get_portfolio portfolio_id db = Some portfolio →
  let added := LocalStorageService.add_tracked_symbol portfolio_id symbol db in
  (∃ portfolio',
     added.1 = Some portfolio'
     ∧ LocalStorageService.get_portfolio portfolio_id added.2
       = Some portfolio'
     ∧ symbol ∈ Portfolio.tracked_symbols portfolio'
     ∧ Portfolio.tracked_symbols portfolio
       `prefix_of` Portfolio.tracked_symbols portfolio'
     ∧ Portfolio.set_tracked_symbols (Portfolio.tracked_symbols portfolio)
         portfolio'
       = portfolio)
  ∧ LocalStorageService.add_tracked_symbol portfolio_id symbol added.2 = added
  ∧ (symbol ∉ Portfolio.tracked_symbols portfolio →
     (LocalStorageService.remove_tracked_symbol portfolio_id symbol added.2).2
     = db).
Proof.
  intros Hget added. subst added.
  unfold LocalStorageService.add_tracked_symbol,
    LocalStorageService.remove_tracked_symbol,
    LocalStorageService.get_portfolio in *.
  rewrite Hget.
  destruct (decide (symbol ∈ Portfolio.tracked_symbols portfolio))
    as [Hin|Hnot]; simpl.
  - rewrite Hget, decide_True by done. split_and!; [|done|done].
    exists portfolio. split_and!; [done..|]. by destruct portfolio.
  - rewrite !dict_get_set_eq. simpl.
    rewrite !decide_True by set_solver.
    split_and!; [|done|].
    + eexists. split_and!; [done|done|set_solver|by apply prefix_app_r|].
      by destruct portfolio.
    + intros _. simpl. rewrite dict_set_set, remove_snoc by done.
      destruct db as [portfolios trades]. simpl in *. f_equal.
      apply dict_set_get. rewrite Hget. by destruct portfolio.
Qed.

Lemma tracked_symbol_add_remove_witness :
  let added := LocalStorageService.add_tracked_symbol "p1" "MSFT" storage_p1 in
  Portfolio.tracked_symbols <$> added.1 = Some ["AAPL"; "MSFT"]
  ∧ (LocalStorageService.remove_tracked_symbol "p1" "MSFT" added.2).2
    = storage_p1.
Proof.
  intros added. split; [reflexivity|].
  destruct (tracked_symbol_add_remove "p1" "MSFT" storage_p1 portfolio_p1
              eq_refl) as (_ & _ & Hremove).
  apply Hremove. by_computation.
Defined.

(** X25, a new portfolio: [create_portfolio] under an identifier that
    is not in use returns a portfolio that is active, has the initial
    value as balance and as total value, no position, and the symbols
    given, or none; it is what [get_portfolio] then returns, it comes
    last in the list of its user's portfolios, and the stored portfolios
    of before are as they were. *)
Theorem create_portfolio_is_listed
    uuid4 utcnow user_id portfolio_name initial_value tracked_symbols db :
  LocalStorageService.get_portfolio uuid4 db = None →
  let created :=
    LocalStorageService.create_portfolio uuid4 utcnow user_id portfolio_name
      initial_value tracked_symbols db in
  created.1
  = Portfolio.mk uuid4 user_id portfolio_name initial_value initial_value
      initial_value [] (default [] tracked_symbols) true utcnow
  ∧ LocalStorageService.get_portfolio uuid4 created.2 = Some created.1
  ∧ LocalStorageService.get_user_portfolios user_id created.2
    = LocalStorageService.get_user_portfolios user_id db ++ [created.1]
  ∧ ∀ other, other ≠ uuid4 →
      LocalStorageService.get_portfolio other created.2
      = LocalStorageService.get_portfolio other db.
Proof.
  intros Hfresh created. subst created.
  unfold LocalStorageService.create_portfolio,
    LocalStorageService.get_portfolio,
    LocalStorageService.get_user_portfolios in *.
  simpl. split_and!; [done| | |].
  - apply dict_get_set_eq.
  - rewrite dict_set_new by done. unfold dict_values.
    rewrite fmap_app, filter_app. f_equal. simpl.
    rewrite filter_cons. by rewrite decide_True.
  - intros other Hne. by apply dict_get_set_ne.
Qed.

Lemma create_portfolio_is_listed_witness :
  let created :=
    LocalStorageService.create_portfolio "p2" "t1" "ann" "second" (float 50 1)
      None storage_p1 in
  LocalStorageService.get_user_portfolios "ann" created.2
  = [portfolio_p1; created.1].
Proof.
  intros created.
  destruct (create_portfolio_is_listed "p2" "t1" "ann" "second" (float 50 1)
              None storage_p1) as (_ & _ & Hlist & _); [reflexivity|].
  exact Hlist.
Defined.
